(** * paste.run Go client: a model of [client.go] and its properties

    The development follows the layout of [client.go]:
    - the library functions the client calls ([strings], [net/url],
      [path/filepath], [net/http] headers, [io.Pipe], [mime/multipart]),
      modelled from their documented behaviour;
    - the [request] configuration and its functional options;
    - [upload], [UploadFile], [get] and [getLanguages];
    - the properties of these functions.

    Go strings are byte sequences: they are modelled by [string], whose
    characters are the 256 values of [ascii]. *)

From stdpp Require Import base gmap strings list.
From Stdlib Require Import Ascii String ZArith Lia.

Open Scope string_scope.
Open Scope Z_scope.
Open Scope list_scope.

(** ** Package [strings] *)

(** [s[n:]] *)
Fixpoint string_drop (n : nat) (s : string) : string :=
  match n, s with
  | O, _ => s
  | S n', String _ s' => string_drop n' s'
  | S _, EmptyString => EmptyString
  end.

(** [s[:n]] *)
Fixpoint string_take (n : nat) (s : string) : string :=
  match n, s with
  | O, _ => EmptyString
  | S n', String c s' => String c (string_take n' s')
  | S _, EmptyString => EmptyString
  end.

Definition strings_HasPrefix (s pre : string) : bool := String.prefix pre s.

Definition strings_HasSuffix (s suffix : string) : bool :=
  String.prefix (String.rev suffix) (String.rev s).

(** Position of the first occurrence of [substr] in [s]. *)
Fixpoint index_from (s substr : string) : option nat :=
  if String.prefix substr s then Some O
  else match s with
       | EmptyString => None
       | String _ s' => S <$> index_from s' substr
       end.

(** [strings.Index]: [-1] when [substr] does not occur in [s]. *)
Definition strings_Index (s substr : string) : Z :=
  match index_from s substr with
  | Some n => Z.of_nat n
  | None => -1
  end.

Fixpoint string_mem (c : ascii) (chars : string) : bool :=
  match chars with
  | EmptyString => false
  | String d rest => if Ascii.eqb c d then true else string_mem c rest
  end.

(** [strings.ContainsAny] for a set [chars] of ASCII characters: an ASCII
    byte of [s] is always a code point of its own. *)
Fixpoint strings_ContainsAny (s chars : string) : bool :=
  match s with
  | EmptyString => false
  | String c s' => if string_mem c chars then true else strings_ContainsAny s' chars
  end.

Definition strings_TrimSuffix (s suffix : string) : string :=
  if strings_HasSuffix s suffix
  then string_take (String.length s - String.length suffix) s
  else s.

Definition byte_code (c : ascii) : N := N_of_ascii c.

(** The ASCII members of [unicode.IsSpace]: tab, LF, VT, FF, CR and space. *)
Definition ascii_space (c : ascii) : bool :=
  let n := byte_code c in
  ((9 <=? n) && (n <=? 13) || (n =? 32))%N.

(** The other members of [unicode.IsSpace], by their UTF-8 encodings:
    U+0085, U+00A0 (two bytes), U+1680, U+2000..U+200A, U+2028, U+2029,
    U+202F, U+205F and U+3000 (three bytes). *)
Definition space2 (b1 b2 : ascii) : bool :=
  ((byte_code b1 =? 194) && ((byte_code b2 =? 133) || (byte_code b2 =? 160)))%N.

Definition space3 (b1 b2 b3 : ascii) : bool :=
  let '(x, y, z) := (byte_code b1, byte_code b2, byte_code b3) in
  ((x =? 225) && (y =? 154) && (z =? 128)
   || (x =? 226) && (y =? 128)
      && ((128 <=? z) && (z <=? 138) || (z =? 168) || (z =? 169) || (z =? 175))
   || (x =? 226) && (y =? 129) && (z =? 159)
   || (x =? 227) && (y =? 128) && (z =? 128))%N.

(** One end of [strings.TrimFunc(s, unicode.IsSpace)]: each iteration
    removes one leading white-space code point, whose two-byte and
    three-byte encodings [sp2] and [sp3] recognise. *)
Fixpoint trim_spaces (sp2 : ascii -> ascii -> bool) (sp3 : ascii -> ascii -> ascii -> bool)
    (fuel : nat) (s : string) : string :=
  match fuel with
  | O => s
  | S fuel' =>
      match s with
      | String a rest1 =>
          if ascii_space a then trim_spaces sp2 sp3 fuel' rest1
          else match rest1 with
               | String b rest2 =>
                   if sp2 a b then trim_spaces sp2 sp3 fuel' rest2
                   else match rest2 with
                        | String c rest3 =>
                            if sp3 a b c then trim_spaces sp2 sp3 fuel' rest3 else s
                        | EmptyString => s
                        end
               | EmptyString => s
               end
      | EmptyString => s
      end
  end.

(** [strings.TrimLeftFunc(s, unicode.IsSpace)] *)
Definition trim_left : nat -> string -> string := trim_spaces space2 space3.

(** [strings.TrimRightFunc(s, unicode.IsSpace)] on the reversed string: the
    bytes of a trailing code point come last byte first. *)
Definition trim_right_rev : nat -> string -> string :=
  trim_spaces (fun a b => space2 b a) (fun a b c => space3 c b a).

(** [strings.TrimSpace] *)
Definition strings_TrimSpace (s : string) : string :=
  let l := trim_left (String.length s) s in
  String.rev (trim_right_rev (String.length l) (String.rev l)).

(** ** Package [net/url]: [QueryEscape] *)

Definition is_alnum (c : ascii) : bool :=
  let n := byte_code c in
  ((48 <=? n) && (n <=? 57) || (65 <=? n) && (n <=? 90) || (97 <=? n) && (n <=? 122))%N.

(** [shouldEscape c encodeQueryComponent]: letters, digits and [-_.~] are
    kept, every other byte is escaped. *)
Definition shouldEscape (c : ascii) : bool :=
  negb (is_alnum c || string_mem c "-_.~").

Definition upperhex (n : N) : ascii :=
  match String.get (N.to_nat n) "0123456789ABCDEF" with
  | Some c => c
  | None => "0"%char
  end.

Fixpoint url_QueryEscape (s : string) : string :=
  match s with
  | EmptyString => EmptyString
  | String c s' =>
      if Ascii.eqb c " " then String "+" (url_QueryEscape s')
      else if shouldEscape c
           then String "%" (String (upperhex (N.shiftr (byte_code c) 4))
                              (String (upperhex (N.land (byte_code c) 15))
                                 (url_QueryEscape s')))
           else String c (url_QueryEscape s')
  end.

(** ** Package [path/filepath]: [Base], with [/] as the separator *)




(** ** Errors *)

(** Go [error] values: the ones [client.go] builds with [errors.New], the
    two sentinels of package [io], the wrapper of [net/url], and the errors
    of the collaborators ([os], [net/http], [encoding/json], [time], the
    payload reader), which the client only passes on. *)
Inductive error : Type :=
| errors_New (text : string)
| io_EOF
| io_ErrClosedPipe
| url_Error (op url : string) (err : error)
| lib_error (pkg text : string).

(** [err.Error()], for the errors whose text is fixed here: an error of
    [errors.New] says its text, the two sentinels of [io] theirs. The text
    of a wrapped error and of a collaborator's error is the library's. *)
Definition Error (e : error) : option string :=
  match e with
  | errors_New text => Some text
  | io_EOF => Some "EOF"
  | io_ErrClosedPipe => Some "io: read/write on closed pipe"
  | url_Error _ _ _ => None
  | lib_error _ _ => None
  end.

(** [errors.Unwrap] reaches [cause] from [e]. *)
Fixpoint derived_from (cause e : error) : Prop :=
  e = cause \/
  match e with
  | url_Error _ _ err => derived_from cause err
  | _ => False
  end.

(** A Go call either returns or panics. *)
Inductive outcome (A : Type) : Type :=
| Returns (a : A)
| Panics (v : string).
Arguments Returns {A} a.
Arguments Panics {A} v.

(** ** Package [net/http]: headers *)

(** The bytes of an HTTP token ([validHeaderFieldByte]). *)
Definition validHeaderFieldByte (c : ascii) : bool :=
  is_alnum c || string_mem c "!#$%&'*+-.^_`|~".

Fixpoint all_bytes (p : ascii -> bool) (s : string) : bool :=
  match s with
  | EmptyString => true
  | String c s' => p c && all_bytes p s'
  end.

Definition is_upper (c : ascii) : bool := ((65 <=? byte_code c) && (byte_code c <=? 90))%N.
Definition is_lower (c : ascii) : bool := ((97 <=? byte_code c) && (byte_code c <=? 122))%N.
Definition to_upper (c : ascii) : ascii :=
  if is_lower c then ascii_of_N (byte_code c - 32) else c.
Definition to_lower (c : ascii) : ascii :=
  if is_upper c then ascii_of_N (byte_code c + 32) else c.

(** First letter upper case, and upper case after each dash. *)
Fixpoint canonical_case (upper : bool) (s : string) : string :=
  match s with
  | EmptyString => EmptyString
  | String c s' =>
      let c' := if upper then to_upper c else to_lower c in
      String c' (canonical_case (Ascii.eqb c' "-") s')
  end.

(** [textproto.CanonicalMIMEHeaderKey]: a key with a byte that is not a
    token byte is returned unchanged. *)
Definition CanonicalMIMEHeaderKey (s : string) : string :=
  if all_bytes validHeaderFieldByte s then canonical_case true s else s.

(** [http.Header] is [map[string][]string]. *)
Abbreviation Header := (gmap string (list string)).

(** [h.Set(key, value)] *)
Definition Header_Set (key value : string) (h : Header) : Header :=
  <[CanonicalMIMEHeaderKey key := [value]]> h.

(** [h.Get(key)]: the first value of the key, [""] when there is none. *)
Definition Header_Get (key : string) (h : Header) : string :=
  match h !! CanonicalMIMEHeaderKey key with
  | Some (v :: _) => v
  | _ => ""
  end.

(** ** Requests, responses and the transport *)

(** [context.Context] values are opaque to the client. *)
Definition context_Context : Type := nat.

(** One [Write] on the pipe by the multipart writer: the boundary line and
    headers that open a part, bytes of the current part's content, or the
    closing boundary line. *)
Inductive chunk : Type :=
| PartHeader (name : string) (filename : option string)
| PartData (data : string)
| CloseDelimiter.

Inductive RequestBody : Type :=
| NoBody
| PipeReader.

(** [*url.URL]: a parsed URL, which the client never looks into;
    [u.String()] is its text, as the parser has normalised it. *)
Record url_URL : Type := {
  URL_String : string
}.

(** [*http.Request]: [URL] is the parsed URL, not the string that
    [http.NewRequest] was given. *)
Record HttpRequest : Type := {
  Method : string;
  URL : url_URL;
  ReqHeader : Header;
  ReqCtx : option context_Context;
  Body : RequestBody
}.

(** A response body is a stream: the bytes it yields and the error, if
    any, that ends it. *)
Record ReadCloser : Type := {
  content : string;
  read_err : option error
}.

Record Response : Type := {
  StatusCode : Z;
  RespHeader : Header;
  RespBody : ReadCloser;
  ContentLength : Z
}.

(** [ioutil.ReadAll] returns what it has read and the error. *)
Definition ioutil_ReadAll (b : ReadCloser) : string * option error :=
  (content b, read_err b).

(** What [client.Do] ends with. *)
Definition DoResult : Type := outcome (Response + error).

(** The transport is an external collaborator. From the body chunks it
    has read so far it decides to read on (and what it ends with when that
    read meets end-of-stream or an error) or to end without reading on. *)
Inductive TAction : Type :=
| KeepReading (on_eof : DoResult) (on_err : error -> DoResult)
| Stop (res : DoResult).

Definition Transport : Type := list chunk -> TAction.

(** [*http.Client] *)
Record HttpClient : Type := {
  Do : HttpRequest -> Transport
}.

(** A request with no body: a read meets end-of-stream at once. *)
Definition run_nobody (t : Transport) : DoResult :=
  match t [] with
  | KeepReading on_eof _ => on_eof
  | Stop res => res
  end.

(** ** Package [io]: the synchronous pipe *)

(** The two ends of [io.Pipe()] share this state: the error each side was
    closed with. The pipe is done once either side is closed. A [Write]
    hands its bytes to a [Read] directly, so no data is ever pending in the
    pipe itself. *)
Record pipe : Type := {
  rerr : option error;
  werr : option error
}.

Definition io_Pipe : pipe := {| rerr := None; werr := None |}.

Definition pipe_done (p : pipe) : bool :=
  bool_decide (is_Some (rerr p)) || bool_decide (is_Some (werr p)).

(** The first error stored in a slot stays. *)
Definition store_once (slot : option error) (e : error) : option error :=
  match slot with
  | Some _ => slot
  | None => Some e
  end.

(** [bodyr.Close()] is [closeRead(nil)]: a nil error stands for
    [io.ErrClosedPipe]. *)
Definition closeRead (err : option error) (p : pipe) : pipe :=
  {| rerr := store_once (rerr p) (default io_ErrClosedPipe err); werr := werr p |}.

(** [bodyw.CloseWithError(err)]: a nil error stands for [io.EOF]. *)
Definition CloseWithError (err : option error) (p : pipe) : pipe :=
  {| rerr := rerr p; werr := store_once (werr p) (default io_EOF err) |}.

(** What a [Read] returns on a done pipe. *)
Definition readCloseError (p : pipe) : error :=
  match rerr p, werr p with
  | None, Some e => e
  | _, _ => io_ErrClosedPipe
  end.

(** What a [Write] returns on a done pipe. *)
Definition writeCloseError (p : pipe) : error :=
  match werr p, rerr p with
  | None, Some e => e
  | _, _ => io_ErrClosedPipe
  end.

(** ** The producer side: programs that write to the pipe *)

(** The goroutine of [upload] acts on the pipe only through [bodyw]: a
    [Write], which returns nil or an error ([PWrite]), and
    [CloseWithError] ([PClose]); [PExit] is its return. *)
Inductive Producer : Type :=
| PWrite (c : chunk) (k : option error -> Producer)
| PClose (err : option error) (k : Producer)
| PExit.

(** The payload [r io.Reader]: the bytes of its successive [Read]s and the
    error of its last one, [io.EOF] for a source that ends well. *)
Record Reader : Type := {
  reads : list string;
  last_err : error
}.

Definition is_EOF (e : error) : bool :=
  match e with
  | io_EOF => true
  | _ => false
  end.

(** [io.Copy(f, r)]: every non-empty read is written to the part; the copy
    ends at the first failing write, or with the reader's last error, where
    [io.EOF] is not an error. *)
Fixpoint copy_reads (rs : list string) (last : error) (k : option error -> Producer) : Producer :=
  match rs with
  | [] => k (if is_EOF last then None else Some last)
  | d :: rest =>
      if String.eqb d "" then copy_reads rest last k
      else PWrite (PartData d)
             (fun ew => match ew with
                        | Some e => k (Some e)
                        | None => copy_reads rest last k
                        end)
  end.

Definition io_Copy (r : Reader) (k : option error -> Producer) : Producer :=
  copy_reads (reads r) (last_err r) k.

(** ** Package [mime/multipart]: the writer, on top of [bodyw] *)

(** [w.CreatePart]: one write of the boundary line and the part's headers. *)
Definition multipart_CreatePart (name : string) (filename : option string)
    (k : option error -> Producer) : Producer :=
  PWrite (PartHeader name filename) k.

(** [w.WriteField(name, value)]: the part's header, then its value. *)
Definition multipart_WriteField (name value : string)
    (k : option error -> Producer) : Producer :=
  multipart_CreatePart name None
    (fun err => match err with
                | Some e => k (Some e)
                | None => PWrite (PartData value) k
                end).

(** [w.CreateFormFile(fieldname, filename)] *)
Definition multipart_CreateFormFile (fieldname filename : string)
    (k : option error -> Producer) : Producer :=
  multipart_CreatePart fieldname (Some filename) k.

(** [w.Close()]: one write of the closing boundary line. *)
Definition multipart_Close (k : option error -> Producer) : Producer :=
  PWrite CloseDelimiter k.

(** [w.FormDataContentType()], for the boundary the writer drew. *)
Definition FormDataContentType (boundary : string) : string :=
  "multipart/form-data; boundary=" +:+ boundary.

(** ** The producer and the consumer at the two ends of the pipe *)

(** Where the goroutine stands: blocked in a [Write] that waits for a
    reader, or returned. *)
Inductive PState : Type :=
| PBlocked (c : chunk) (k : option error -> Producer)
| PExited.

(** The goroutine runs as far as it can without a reader: closing the pipe
    never blocks, a write on a done pipe fails at once, a write on an open
    pipe blocks. *)
Fixpoint advance (p : Producer) (pi : pipe) : PState * pipe :=
  match p with
  | PWrite c k =>
      if pipe_done pi then advance (k (Some (writeCloseError pi))) pi
      else (PBlocked c k, pi)
  | PClose err k => advance k (CloseWithError err pi)
  | PExit => (PExited, pi)
  end.

(** [client.Do] with the pipe's reader as the request body. [result] is
    [None] when a read of the body blocks for ever: the writer has returned
    and left the pipe open. *)
Record Served : Type := {
  result : option DoResult;
  body_read : list chunk;
  producer_state : Producer;
  pipe_state : pipe
}.

(** Each read of the transport meets the next write of the goroutine and
    takes the whole of it; a read on a done pipe returns the close error;
    the transport may end while the goroutine is blocked in a write. The
    pipe is synchronous, so the two sides meet only at these points: the
    schedules of the goroutine between two of them differ in nothing that
    either side can see, and one run stands for all. *)
Fixpoint serve (t : Transport) (seen : list chunk) (p : Producer) (pi : pipe) : Served :=
  match p with
  | PWrite c k =>
      if pipe_done pi then serve t seen (k (Some (writeCloseError pi))) pi
      else match t seen with
           | KeepReading _ _ => serve t (seen ++ [c]) (k None) pi
           | Stop res =>
               {| result := Some res; body_read := seen;
                  producer_state := p; pipe_state := pi |}
           end
  | PClose err k => serve t seen k (CloseWithError err pi)
  | PExit =>
      {| result :=
           match t seen with
           | KeepReading on_eof on_err =>
               if pipe_done pi
               then Some (if is_EOF (readCloseError pi) then on_eof
                          else on_err (readCloseError pi))
               else None
           | Stop res => Some res
           end;
         body_read := seen; producer_state := PExit; pipe_state := pi |}
  end.

(** ** The request configuration *)

Record request : Type := {
  author : string;
  title : string;
  desc : string;
  typ : string;
  tok : string;
  ctx : option context_Context;
  client : option HttpClient;
  baseURL : string;
  headers : list string;
  query : string
}.

(** [&request{}] *)
Definition request_zero : request :=
  {| author := ""; title := ""; desc := ""; typ := ""; tok := ""; ctx := None;
     client := None; baseURL := ""; headers := []; query := "" |}.

(** Option is one of the request options, a function on a [request]. *)
Definition Option : Type := request -> request.

(** Author of the paste for upload. *)
Definition Author (set : string) : Option := fun req =>
  {| author := set; title := title req; desc := desc req; typ := typ req;
     tok := tok req; ctx := ctx req; client := client req; baseURL := baseURL req;
     headers := headers req; query := query req |}.

(** Title of the paste for upload. *)
Definition Title (set : string) : Option := fun req =>
  {| author := author req; title := set; desc := desc req; typ := typ req;
     tok := tok req; ctx := ctx req; client := client req; baseURL := baseURL req;
     headers := headers req; query := query req |}.

(** Description of the paste for upload. *)
Definition Description (set : string) : Option := fun req =>
  {| author := author req; title := title req; desc := set; typ := typ req;
     tok := tok req; ctx := ctx req; client := client req; baseURL := baseURL req;
     headers := headers req; query := query req |}.

(** Type of paste for upload ([Type] in the source). *)
Definition Type_ (set : string) : Option := fun req =>
  {| author := author req; title := title req; desc := desc req; typ := set;
     tok := tok req; ctx := ctx req; client := client req; baseURL := baseURL req;
     headers := headers req; query := query req |}.

(** Token for the request. *)
Definition Token (set : string) : Option := fun req =>
  {| author := author req; title := title req; desc := desc req; typ := typ req;
     tok := set; ctx := ctx req; client := client req; baseURL := baseURL req;
     headers := headers req; query := query req |}.

(** Context for the request. *)
Definition Context (set : option context_Context) : Option := fun req =>
  {| author := author req; title := title req; desc := desc req; typ := typ req;
     tok := tok req; ctx := set; client := client req; baseURL := baseURL req;
     headers := headers req; query := query req |}.

(** Client for the request. *)
Definition Client (set : option HttpClient) : Option := fun req =>
  {| author := author req; title := title req; desc := desc req; typ := typ req;
     tok := tok req; ctx := ctx req; client := set; baseURL := baseURL req;
     headers := headers req; query := query req |}.

Definition defaultBaseURL : string := "https://api.paste.run/".

(** BaseURL - This function may be removed in the future. *)
Definition BaseURL (set : string) : Option := fun req =>
  {| author := author req; title := title req; desc := desc req; typ := typ req;
     tok := tok req; ctx := ctx req; client := client req; baseURL := set;
     headers := headers req; query := query req |}.

(** Headers for the request: HTTP header pairs of key, value. The length
    check runs when the option is built, before the closure exists. *)
Definition Headers (hs : list string) : outcome Option :=
  if negb (Nat.eqb (Nat.modulo (List.length hs) 2) 0) then Panics "invalid headers"
  else Returns (fun req =>
    {| author := author req; title := title req; desc := desc req; typ := typ req;
       tok := tok req; ctx := ctx req; client := client req; baseURL := baseURL req;
       headers := hs; query := query req |}).

(** Query is the query for GetLanguages. *)
Definition Query (set : string) : Option := fun req =>
  {| author := author req; title := title req; desc := desc req; typ := typ req;
     tok := tok req; ctx := ctx req; client := client req; baseURL := baseURL req;
     headers := headers req; query := set |}.

(** [for _, opt := range options { opt(req) }] *)
Definition apply_options (req : request) (options : list Option) : request :=
  fold_left (fun r opt => opt r) options req.

(** *** The option expressions a caller can write

    [request] is unexported, so a caller obtains an [Option] only from the
    ten constructors above. The arguments of a call are evaluated left to
    right before the call; a panic among them ends the caller there. *)
Inductive OptionCall : Type :=
| CallAuthor (set : string)
| CallTitle (set : string)
| CallDescription (set : string)
| CallType (set : string)
| CallToken (set : string)
| CallContext (set : option context_Context)
| CallClient (set : option HttpClient)
| CallBaseURL (set : string)
| CallHeaders (hs : list string)
| CallQuery (set : string).

Definition eval_option (c : OptionCall) : outcome Option :=
  match c with
  | CallAuthor set => Returns (Author set)
  | CallTitle set => Returns (Title set)
  | CallDescription set => Returns (Description set)
  | CallType set => Returns (Type_ set)
  | CallToken set => Returns (Token set)
  | CallContext set => Returns (Context set)
  | CallClient set => Returns (Client set)
  | CallBaseURL set => Returns (BaseURL set)
  | CallHeaders hs => Headers hs
  | CallQuery set => Returns (Query set)
  end.

Fixpoint eval_options (cs : list OptionCall) : outcome (list Option) :=
  match cs with
  | [] => Returns []
  | c :: rest =>
      match eval_option c with
      | Panics v => Panics v
      | Returns opt =>
          match eval_options rest with
          | Panics v => Panics v
          | Returns opts => Returns (opt :: opts)
          end
      end
  end.

(** A call whose option arguments are the expressions [cs]: [f] is entered
    only if every argument evaluates. *)
Definition call_with {A : Type} (cs : list OptionCall) (f : list Option -> A) : outcome A :=
  match eval_options cs with
  | Panics v => Panics v
  | Returns opts => Returns (f opts)
  end.

(** ** Results *)

(** [time.Time]: the seconds since January 1 of the year 1, UTC, and the
    nanoseconds; the zero value is [time.Time{}]. *)
Record time_Time : Type := {
  sec : Z;
  nsec : Z
}.

Definition time_zero : time_Time := {| sec := 0; nsec := 0 |}.

Definition http_TimeFormat : string := "Mon, 02 Jan 2006 15:04:05 GMT".

Module PasteInfo.
(** PasteInfo is information related to a paste. *)
Record t : Type := {
  Content : option ReadCloser;
  Size : Z;
  Type_ : string;
  Language : string;
  Class : string;
  Author : string;
  Title : string;
  Created : time_Time;
  Expires : time_Time
}.

(** [PasteInfo{}] *)
Definition zero : t :=
  {| Content := None; Size := 0; Type_ := ""; Language := ""; Class := "";
     Author := ""; Title := ""; Created := time_zero; Expires := time_zero |}.
End PasteInfo.

Module LanguageInfo.
Record t : Type := {
  Name : string;
  Class : string;
  Mode : string
}.
End LanguageInfo.

(** The anonymous struct [x] that [getLanguages] decodes into. *)
Record CatalogReply : Type := {
  Q : string;
  Results : list LanguageInfo.t
}.

(** A call of [get] or [getLanguages]: what it returns, the requests it
    handed to [client.Do], and what [client.Do] ended with, if it was
    called. *)
Record Call (A : Type) : Type := {
  ret : outcome A;
  requests : list HttpRequest;
  exchange : option DoResult
}.
Arguments ret {A} c.
Arguments requests {A} c.
Arguments exchange {A} c.

(** A call of [upload]: what it returns ([None] if it never does), the
    requests it handed to [client.Do], what [client.Do] ended with, the
    body chunks the transport read, and the pipe and the goroutine once the
    deferred [bodyr.Close()] has run. *)
Record UploadRun : Type := {
  returned : option (outcome (string * option error));
  sent : list HttpRequest;
  done : option DoResult;
  body_sent : list chunk;
  end_pipe : pipe;
  end_producer : PState
}.

(** ** Sample collaborators and inputs, for the examples *)

Module Sample.

Definition boundary : string := "5f1c0a7e93b2d684".

(** A URL parser for the examples: it refuses a space, which the
    examples have in host names only, and keeps the text of any other URL,
    as [url.Parse] does for the URLs of the examples (lower-case scheme and
    host, nothing to escape). *)
Definition url_Parse (u : string) : url_URL + error :=
  if strings_ContainsAny u " "
  then inr (lib_error "net/url" "invalid character in host name")
  else inl {| URL_String := u |}.

Definition response (status : Z) (h : Header) (body : string) : Response :=
  {| StatusCode := status; RespHeader := h;
     RespBody := {| content := body; read_err := None |};
     ContentLength := Z.of_nat (String.length body) |}.

(** A client that sends the whole body and gets [status] and [body]
    back; a failing body fails the send. *)
Definition server (status : Z) (h : Header) (body : string) : HttpClient :=
  {| Do := fun hr _ =>
       KeepReading (Returns (inl (response status h body)))
         (fun e => Returns (inr (url_Error "Post" (URL_String (URL hr)) e))) |}.

(** A client whose server answers without reading the body. *)
Definition eager_server (status : Z) (body : string) : HttpClient :=
  {| Do := fun _ _ => Stop (Returns (inl (response status ∅ body))) |}.

Definition DefaultClient : HttpClient := server 201 ∅ "https://www.paste.run/abc123".

Definition a_date : string := "Sun, 06 Nov 1994 08:49:37 GMT".
Definition a_time : time_Time := {| sec := 62919708577; nsec := 0 |}.

(** A parser that knows one date. *)
Definition time_Parse (layout value : string) : time_Time * option error :=
  if String.eqb value a_date then (a_time, None)
  else (time_zero, Some (lib_error "time" "cannot parse")).

Definition go_lang : LanguageInfo.t :=
  {| LanguageInfo.Name := "Go"; LanguageInfo.Class := ".go"; LanguageInfo.Mode := "go" |}.
Definition c_lang : LanguageInfo.t :=
  {| LanguageInfo.Name := "C++"; LanguageInfo.Class := ".cpp"; LanguageInfo.Mode := "" |}.

(** A decoder that knows one document. *)
Definition json_Decode (b : ReadCloser) : CatalogReply * option error :=
  if String.eqb (content b) "catalog"
  then ({| Q := "c++"; Results := [c_lang; go_lang] |}, None)
  else ({| Q := ""; Results := [] |}, Some (lib_error "json" "unexpected input")).

Definition hello : Reader := {| reads := ["hello, "; ""; "world"]; last_err := io_EOF |}.



(** A server that refuses the upload. *)
Definition rate_limited : HttpClient :=
  server 429 ∅ (" rate limited " +:+ String "010" "").

(** A server that holds one paste, with a creation date and no expiry. *)
Definition paste_headers : Header :=
  <["Created-At" := [a_date]]> (<["Content-Type" := ["text/plain"]]> ∅).
Definition paste_server : HttpClient := server 200 paste_headers "hello".

Definition catalog_server : HttpClient := server 200 ∅ "catalog".

(** The options that a list of option expressions evaluates to. *)
Definition options_of (cs : list OptionCall) : list Option :=
  match eval_options cs with
  | Returns opts => opts
  | Panics _ => []
  end.

Definition titled : list OptionCall :=
  [CallTitle "draft"; CallAuthor "Chris"; CallType "Go"; CallTitle "My Paste"].

(** Extra headers that name the headers the client sets itself. *)
Definition forced : list OptionCall :=
  [CallHeaders ["content-type"; "text/plain"; "authorization"; "Basic abc"];
   CallToken "secret"].

Definition override_accept : list OptionCall :=
  [CallHeaders ["Accept"; "text/plain"]].

(** A client whose transport panics. *)
Definition panicking : HttpClient :=
  {| Do := fun _ _ => Stop (Panics "transport: broken invariant") |}.

(** A response whose body breaks off. *)
Definition cut_off (status : Z) : HttpClient :=
  {| Do := fun _ _ =>
       KeepReading
         (Returns (inl {| StatusCode := status; RespHeader := ∅;
                          RespBody := {| content := "https://www.pas";
                                         read_err := Some (lib_error "net" "connection reset") |};
                          ContentLength := 27 |}))
         (fun e => Returns (inr e)) |}.

End Sample.

(** ** The client *)

Section Client.

(** The collaborators of the client: the boundary that
    [multipart.NewWriter] draws, the URL parser of [http.NewRequest],
    [http.DefaultClient], [time.Parse], the JSON decoder and the file
    system. *)
Variable boundary : string.
Variable url_Parse : string -> url_URL + error.
Variable DefaultClient : HttpClient.
Variable time_Parse : string -> string -> time_Time * option error.
Variable json_Decode : ReadCloser -> CatalogReply * option error.
Variable os_Open : string -> Reader + error.

(** [http.NewRequest]: fails on a URL that does not parse; the new
    request holds the parsed URL, an empty header map and the background
    context. *)
Definition http_NewRequest (method url : string) (body : RequestBody)
    : HttpRequest + error :=
  match url_Parse url with
  | inr err => inr err
  | inl u => inl {| Method := method; URL := u; ReqHeader := ∅;
                    ReqCtx := None; Body := body |}
  end.

Definition with_Header (h : Header) (hr : HttpRequest) : HttpRequest :=
  {| Method := Method hr; URL := URL hr; ReqHeader := h;
     ReqCtx := ReqCtx hr; Body := Body hr |}.

(** [hr.WithContext(ctx)] *)
Definition WithContext (c : context_Context) (hr : HttpRequest) : HttpRequest :=
  {| Method := Method hr; URL := URL hr; ReqHeader := ReqHeader hr;
     ReqCtx := Some c; Body := Body hr |}.

(** [for i := 0; i+1 < len(req.headers); i += 2 {
      hr.Header.Set(req.headers[i], req.headers[i+1]) }] *)
Fixpoint set_header_pairs (hs : list string) (h : Header) : Header :=
  match hs with
  | key :: value :: rest => set_header_pairs rest (Header_Set key value h)
  | _ => h
  end.

(** [if req.ctx != nil { hr = hr.WithContext(req.ctx) }] *)
Definition attach_ctx (req : request) (hr : HttpRequest) : HttpRequest :=
  match ctx req with
  | Some c => WithContext c hr
  | None => hr
  end.

(** [if req.tok != "" { hr.Header.Set("Authorization", "Bearer "+req.tok) }] *)
Definition set_token (req : request) (hr : HttpRequest) : HttpRequest :=
  if negb (String.eqb (tok req) "")
  then with_Header (Header_Set "Authorization" ("Bearer " +:+ tok req) (ReqHeader hr)) hr
  else hr.

Definition pick_client (req : request) : HttpClient :=
  match client req with
  | Some c => c
  | None => DefaultClient
  end.

Definition pick_baseURL (req : request) : string :=
  if String.eqb (baseURL req) "" then defaultBaseURL else baseURL req.

(** *** [upload] *)

(** The deferred function of the goroutine. *)
Definition goroutine_deferred (bodywClosed : bool) : Producer :=
  multipart_Close
    (fun err => if bodywClosed then PExit else PClose err PExit).

(** [if value != "" { w.WriteField(name, value) }]: the error of
    [WriteField] is dropped. *)
Definition write_field_if (name value : string) (next : Producer) : Producer :=
  if negb (String.eqb value "")
  then multipart_WriteField name value (fun _ => next)
  else next.

(** The goroutine that feeds the pipe. On each of its two error returns
    it has closed [bodyw] itself and set [bodywClosed]. *)
Definition goroutine (req : request) (r : Reader) : Producer :=
  write_field_if "author" (author req)
    (write_field_if "title" (title req)
      (write_field_if "desc" (desc req)
        (write_field_if "type" (typ req)
          (multipart_CreateFormFile "file" "-"
            (fun err =>
               match err with
               | Some e => PClose (Some e) (goroutine_deferred true)
               | None =>
                   io_Copy r
                     (fun err =>
                        match err with
                        | Some e => PClose (Some e) (goroutine_deferred true)
                        | None => goroutine_deferred false
                        end)
               end))))).

(** The headers, context and token of the upload request. *)
Definition upload_request (req : request) (contentType : string)
    (hr : HttpRequest) : HttpRequest :=
  let hr := with_Header (set_header_pairs (headers req) (ReqHeader hr)) hr in
  let hr := with_Header (Header_Set "Content-Type" contentType (ReqHeader hr)) hr in
  let hr := attach_ctx req hr in
  set_token req hr.

(** From the return of [client.Do] to the return of [upload]. *)
Definition upload_result (res : DoResult) : outcome (string * option error) :=
  match res with
  | Panics v => Panics v
  | Returns (inr err) => Returns ("", Some err)
  | Returns (inl resp) =>
      let '(result, err) := ioutil_ReadAll (RespBody resp) in
      match err with
      | Some e => Returns ("", Some e)
      | None =>
          if negb (StatusCode resp =? 201)
          then Returns ("", Some (errors_New (strings_TrimSpace result)))
          else Returns (strings_TrimSpace result, None)
      end
  end.

(** The body of [upload] up to its return: what it returns, the requests
    it has sent, and the pipe and the goroutine at that point. Before
    [client.Do] the goroutine has not met a reader yet. *)
Definition upload_body (r : Reader) (req0 : request) (options : list Option)
    : option (outcome (string * option error)) * list HttpRequest * Served :=
  let req := apply_options req0 options in
  let contentType := FormDataContentType boundary in
  match http_NewRequest "POST" (pick_baseURL req) PipeReader with
  | inr err =>
      (Some (Returns ("", Some err)), [],
       {| result := None; body_read := [];
          producer_state := goroutine req r; pipe_state := io_Pipe |})
  | inl hr =>
      let hr := upload_request req contentType hr in
      let s := serve (Do (pick_client req) hr) [] (goroutine req r) io_Pipe in
      (upload_result <$> result s, [hr], s)
  end.

(** [upload]: its body, then the deferred [bodyr.Close()], which runs on
    every way out; the goroutine goes on from there. *)
Definition upload (r : Reader) (req0 : request) (options : list Option) : UploadRun :=
  let '(res, hrs, s) := upload_body r req0 options in
  let '(st, pi') := advance (producer_state s) (closeRead None (pipe_state s)) in
  {| returned := res; sent := hrs; done := result s; body_sent := body_read s;
     end_pipe := pi'; end_producer := st |}.

(** Upload the paste in r. Returns the new paste URL. *)
Definition Upload (r : Reader) (options : list Option) : UploadRun :=
  upload r request_zero options.


(** *** [get] *)

Definition known_prefix : string := "https://www.paste.run/".

(** The check of the paste reference and the URL to fetch. *)
Definition pasteURL_of (paste base : string) : string + error :=
  if negb (strings_Index paste "://" =? -1) then
    (* Paste URL. *)
    let p := known_prefix in
    if negb (strings_HasPrefix paste p)
       || strings_ContainsAny (string_drop (String.length p) paste) "./#?"
    then inr (errors_New "invalid paste URL")
    else inl (strings_TrimSuffix base "/" +:+ "/"
              +:+ string_drop (String.length p) paste +:+ "?raw")
  else
    (* Paste ID. *)
    if strings_ContainsAny paste "./#?"
    then inr (errors_New "invalid paste URL")
    else inl (strings_TrimSuffix base "/" +:+ "/" +:+ paste +:+ "?raw").

(** The headers, context and token of a download request. *)
Definition get_request (req : request) (hr : HttpRequest) : HttpRequest :=
  let hr := with_Header (set_header_pairs (headers req) (ReqHeader hr)) hr in
  let hr := attach_ctx req hr in
  set_token req hr.

(** From the return of [client.Do] to the return of [get]. *)
Definition get_result (res : DoResult) : outcome (PasteInfo.t * option error) :=
  match res with
  | Panics v => Panics v
  | Returns (inr err) => Returns (PasteInfo.zero, Some err)
  | Returns (inl resp) =>
      if negb (StatusCode resp =? 200) then
        let '(result, err) := ioutil_ReadAll (RespBody resp) in
        match err with
        | Some e => Returns (PasteInfo.zero, Some e)
        | None => Returns (PasteInfo.zero, Some (errors_New (strings_TrimSpace result)))
        end
      else
        let '(created, _) :=
          time_Parse http_TimeFormat (Header_Get "Created-At" (RespHeader resp)) in
        let '(expires, _) :=
          time_Parse http_TimeFormat (Header_Get "Expires" (RespHeader resp)) in
        Returns
          ({| PasteInfo.Content := Some (RespBody resp);
              PasteInfo.Size := ContentLength resp;
              PasteInfo.Type_ := Header_Get "Content-Type" (RespHeader resp);
              PasteInfo.Language := Header_Get "Paste-Language" (RespHeader resp);
              PasteInfo.Class := Header_Get "Paste-Class" (RespHeader resp);
              PasteInfo.Author := Header_Get "Created-By" (RespHeader resp);
              PasteInfo.Title := Header_Get "Paste-Title" (RespHeader resp);
              PasteInfo.Created := created;
              PasteInfo.Expires := expires |}, None)
  end.

Definition get (paste : string) (req0 : request) (options : list Option)
    : Call (PasteInfo.t * option error) :=
  let req := apply_options req0 options in
  match pasteURL_of paste (pick_baseURL req) with
  | inr err =>
      {| ret := Returns (PasteInfo.zero, Some err); requests := []; exchange := None |}
  | inl pasteURL =>
      match http_NewRequest "GET" pasteURL NoBody with
      | inr err =>
          {| ret := Returns (PasteInfo.zero, Some err); requests := [];
             exchange := None |}
      | inl hr =>
          let hr := get_request req hr in
          let res := run_nobody (Do (pick_client req) hr) in
          {| ret := get_result res; requests := [hr]; exchange := Some res |}
      end
  end.

(** Get a paste. paste can be a full paste URL or just the paste ID. *)
Definition Get (paste : string) (options : list Option)
    : Call (PasteInfo.t * option error) :=
  get paste request_zero options.

(** *** [getLanguages] *)

Definition languages_url (req : request) : string :=
  let geturl := strings_TrimSuffix (pick_baseURL req) "/" +:+ "/languages" in
  if negb (String.eqb (query req) "")
  then geturl +:+ "?q=" +:+ url_QueryEscape (query req)
  else geturl.

(** The headers, context and token of a catalog request. *)
Definition languages_request (req : request) (hr : HttpRequest) : HttpRequest :=
  let hr := with_Header (Header_Set "Accept" "application/json" (ReqHeader hr)) hr in
  let hr := with_Header (set_header_pairs (headers req) (ReqHeader hr)) hr in
  let hr := attach_ctx req hr in
  set_token req hr.

(** From the return of [client.Do] to the return of [getLanguages]; the
    nil slice is the empty list. *)
Definition languages_result (res : DoResult)
    : outcome (list LanguageInfo.t * option error) :=
  match res with
  | Panics v => Panics v
  | Returns (inr err) => Returns ([], Some err)
  | Returns (inl resp) =>
      if negb (StatusCode resp =? 200) then
        let '(result, err) := ioutil_ReadAll (RespBody resp) in
        match err with
        | Some e => Returns ([], Some e)
        | None => Returns ([], Some (errors_New (strings_TrimSpace result)))
        end
      else
        let '(x, err) := json_Decode (RespBody resp) in
        match err with
        | Some e => Returns ([], Some e)
        | None => Returns (Results x, None)
        end
  end.

Definition getLanguages (req0 : request) (options : list Option)
    : Call (list LanguageInfo.t * option error) :=
  let req := apply_options req0 options in
  match http_NewRequest "GET" (languages_url req) NoBody with
  | inr err => {| ret := Returns ([], Some err); requests := []; exchange := None |}
  | inl hr =>
      let hr := languages_request req hr in
      let res := run_nobody (Do (pick_client req) hr) in
      {| ret := languages_result res; requests := [hr]; exchange := Some res |}
  end.

(** GetLanguages gets information on all languages, or use Query to
    search for particular language(s). *)
Definition GetLanguages (options : list Option)
    : Call (list LanguageInfo.t * option error) :=
  getLanguages request_zero options.


(** ** Notions used to state the properties *)

(** *** The parts of a multipart body *)

Record Part : Type := {
part_name : string;
part_filename : option string;
part_content : string
}.

(** The content that follows a part's header. *)
Fixpoint leading_data (cs : list chunk) : string :=
match cs with
| PartData d :: rest => d +:+ leading_data rest
| _ => ""
end.

(** A body read back as parts: each header opens a part whose content is
  the data up to the next boundary line. *)
Fixpoint parts_of (cs : list chunk) : list Part :=
match cs with
| [] => []
| PartHeader name filename :: rest =>
    {| part_name := name; part_filename := filename;
       part_content := leading_data rest |} :: parts_of rest
| PartData _ :: rest => parts_of rest
| CloseDelimiter :: rest => parts_of rest
end.

Definition text_part (name value : string) : Part :=
{| part_name := name; part_filename := None; part_content := value |}.

(** A text field is present exactly when its value is not empty. *)
Definition text_parts (name value : string) : list Part :=
if String.eqb value "" then [] else [text_part name value].

Fixpoint string_concat (l : list string) : string :=
match l with
| [] => ""
| s :: rest => s +:+ string_concat rest
end.

(** The payload's bytes, in order. *)
Definition payload_bytes (r : Reader) : string := string_concat (reads r).

(** The part that carries the payload. *)
Definition file_part (bytes : string) : Part :=
  {| part_name := "file"; part_filename := Some "-"; part_content := bytes |}.

(** The writes of a text field, of the payload, and of a whole body. *)
Definition field_chunks (name value : string) : list chunk :=
  if String.eqb value "" then [] else [PartHeader name None; PartData value].

Fixpoint data_chunks (rs : list string) : list chunk :=
  match rs with
  | [] => []
  | d :: rest => if String.eqb d "" then data_chunks rest else PartData d :: data_chunks rest
  end.

Definition body_chunks (req : request) (r : Reader) : list chunk :=
  field_chunks "author" (author req) ++ field_chunks "title" (title req)
  ++ field_chunks "desc" (desc req) ++ field_chunks "type" (typ req)
  ++ PartHeader "file" (Some "-") :: data_chunks (reads r)
  ++ (if is_EOF (last_err r) then [CloseDelimiter] else []).

(** The writes of a goroutine that complete when every write on the open
    pipe meets a read. *)
Fixpoint writes (p : Producer) (pi : pipe) : list chunk :=
  match p with
  | PWrite c k =>
      if pipe_done pi then writes (k (Some (writeCloseError pi))) pi
      else c :: writes (k None) pi
  | PClose err k => writes k (CloseWithError err pi)
  | PExit => []
  end.

(** A transport that reads the body to its end. *)
Definition read_all : Transport :=
fun _ => KeepReading (Returns (inr io_EOF)) (fun e => Returns (inr e)).

(** The body a goroutine produces for a consumer that reads all of it. *)
Definition full_body (p : Producer) : list chunk :=
body_read (serve read_all [] p io_Pipe).

(** *** An executed request *)

(** The request of the run has executed: [client.Do] returned a response
    with this status, and this body was read from it to its end. *)
Definition executed (run : UploadRun) (status : Z) (body : string) : Prop :=
  exists resp,
    done run = Some (Returns (inl resp)) /\
    StatusCode resp = status /\
    ioutil_ReadAll (RespBody resp) = (body, None).

(** *** The transport's side of the contract *)

(** The transport reads on whatever it has read so far. *)
Definition reads_on (t : Transport) : Prop :=
forall seen, exists on_eof on_err, t seen = KeepReading on_eof on_err.

(** The transport sends the body it is given: it reads it to its end, and
  a read error ends the send with an error derived from it. *)
Definition sends_body (t : Transport) : Prop :=
forall seen, exists on_eof on_err,
  t seen = KeepReading on_eof on_err /\
  forall e, exists e', on_err e = Returns (inr e') /\ derived_from e e'.

(** *** The goroutine against any reader: its calls of [CloseWithError] *)




(** *** Which option sets which field *)

Definition sets_author (c : OptionCall) : option string :=
match c with CallAuthor set => Some set | _ => None end.
Definition sets_title (c : OptionCall) : option string :=
match c with CallTitle set => Some set | _ => None end.
Definition sets_desc (c : OptionCall) : option string :=
match c with CallDescription set => Some set | _ => None end.
Definition sets_typ (c : OptionCall) : option string :=
match c with CallType set => Some set | _ => None end.
Definition sets_tok (c : OptionCall) : option string :=
match c with CallToken set => Some set | _ => None end.
Definition sets_ctx (c : OptionCall) : option (option context_Context) :=
match c with CallContext set => Some set | _ => None end.
Definition sets_client (c : OptionCall) : option (option HttpClient) :=
match c with CallClient set => Some set | _ => None end.
Definition sets_baseURL (c : OptionCall) : option string :=
match c with CallBaseURL set => Some set | _ => None end.
Definition sets_query (c : OptionCall) : option string :=
match c with CallQuery set => Some set | _ => None end.
Definition sets_headers (c : OptionCall) : option (list string) :=
match c with CallHeaders hs => Some hs | _ => None end.

(** The value given by the last option of [cs] that sets the field, or
  [base] if none does. *)
Definition last_set {A : Type} (sets : OptionCall -> option A) (cs : list OptionCall)
  (base : A) : A :=
default base (last (omap sets cs)).

(** *** Header lists as pairs *)

Fixpoint pairs (hs : list string) : list (string * string) :=
match hs with
| key :: value :: rest => (key, value) :: pairs rest
| _ => []
end.

Definition flatten_pairs (ps : list (string * string)) : list string :=
flat_map (fun kv => [fst kv; snd kv]) ps.

(** *** White space *)

(** The string does not begin with a white-space byte. *)
Definition first_not_space (s : string) : Prop :=
  match s with
  | String a _ => ascii_space a = false
  | EmptyString => True
  end.

(** *** Header names *)

(** Header names are compared without regard to case. *)
Fixpoint string_lower (s : string) : string :=
  match s with
  | EmptyString => EmptyString
  | String c s' => String (to_lower c) (string_lower s')
  end.

(** Every key of the map is a canonical key. *)
Definition canonical_keys (h : Header) : Prop :=
  forall k vs, h !! k = Some vs -> exists key, k = CanonicalMIMEHeaderKey key.

(** *** Paste references *)

Definition contains (s substr : string) : Prop :=
exists a b, s = a +:+ substr +:+ b.

Definition has_char (c : ascii) (s : string) : Prop :=
exists a b, s = a +:+ String c b.

(** None of [.], [/], [#], [?] occurs in [s]. *)
Definition clean (s : string) : Prop :=
forall c, has_char c "./#?" -> ~ has_char c s.

(** [reference paste id]: [paste] is a well-formed reference to [id],
  either the public URL of [id] or [id] itself. *)
Inductive reference : string -> string -> Prop :=
| ref_url id : clean id -> reference (known_prefix +:+ id) id
| ref_id id : ~ contains id "://" -> clean id -> reference id id.

(** The characters [url.QueryEscape] may produce. *)
Definition query_safe (c : ascii) : bool :=
is_alnum c || string_mem c "-_.~+%".

(** ** Further notions *)

(** *** The field an option sets *)

Inductive field : Type :=
| FAuthor | FTitle | FDesc | FTyp | FTok | FCtx | FClient | FBaseURL | FHeaders | FQuery.

Definition field_of (c : OptionCall) : field :=
match c with
| CallAuthor _ => FAuthor
| CallTitle _ => FTitle
| CallDescription _ => FDesc
| CallType _ => FTyp
| CallToken _ => FTok
| CallContext _ => FCtx
| CallClient _ => FClient
| CallBaseURL _ => FBaseURL
| CallHeaders _ => FHeaders
| CallQuery _ => FQuery
end.

(** What the closure of an option expression does to a configuration. *)
Definition assign (c : OptionCall) (req : request) : request :=
match c with
| CallAuthor set => Author set req
| CallTitle set => Title set req
| CallDescription set => Description set req
| CallType set => Type_ set req
| CallToken set => Token set req
| CallContext set => Context set req
| CallClient set => Client set req
| CallBaseURL set => BaseURL set req
| CallHeaders hs =>
    {| author := author req; title := title req; desc := desc req; typ := typ req;
       tok := tok req; ctx := ctx req; client := client req; baseURL := baseURL req;
       headers := hs; query := query req |}
| CallQuery set => Query set req
end.

(** A call with the option expressions [cs] on the base [base]: the
    resolved configuration, or the panic of an argument. *)
Definition resolve_calls (base : request) (cs : list OptionCall) : outcome request :=
match eval_options cs with
| Panics v => Panics v
| Returns opts => Returns (apply_options base opts)
end.

(** *** Extra headers by name *)

(** The pair sets the header that [key] names. *)
Definition names_key (key : string) (kv : string * string) : bool :=
String.eqb (CanonicalMIMEHeaderKey kv.1) (CanonicalMIMEHeaderKey key).

(** *** How the writer's end of the pipe gets closed *)





(** *** The token and the extra headers *)

(** [h] is [extra] with the token of [req] forced over it: a token that
    is not empty decides [Authorization], and nothing else differs. *)
Definition token_over (req : request) (extra h : Header) : Prop :=
(tok req <> "" -> Header_Get "Authorization" h = "Bearer " +:+ tok req) /\
(tok req = "" -> h = extra) /\
(forall key, CanonicalMIMEHeaderKey key <> "Authorization" ->
   Header_Get key h = Header_Get key extra).

(** The error of a response that is refused: the error of reading its
    body, or its body without the white space around it. *)
Definition refusal (resp : Response) : error :=
match read_err (RespBody resp) with
| Some e => e
| None => errors_New (strings_TrimSpace (content (RespBody resp)))
end.

(** *** The fields of the configuration that a call reads *)

Definition same_connection (a b : request) : Prop :=
tok a = tok b /\ ctx a = ctx b /\ client a = client b /\
baseURL a = baseURL b /\ headers a = headers b.

Definition same_fields (a b : request) : Prop :=
author a = author b /\ title a = title b /\ desc a = desc b /\ typ a = typ b.

(** * Properties *)

(** ** Strings *)

Lemma append_cons (c : ascii) (s t : string) : String c s +:+ t = String c (s +:+ t).
Proof. reflexivity. Qed.

Lemma append_nil_l (s : string) : "" +:+ s = s.
Proof. reflexivity. Qed.

Lemma append_nil_r (s : string) : s +:+ "" = s.
Proof.
  induction s as [|c s IH]; [reflexivity|]. rewrite append_cons, IH. reflexivity.
Qed.

Lemma append_assoc (a b c : string) : (a +:+ b) +:+ c = a +:+ (b +:+ c).
Proof.
  induction a as [|x a IH]; [reflexivity|]. rewrite !append_cons, IH. reflexivity.
Qed.

Lemma length_append (a b : string) :
  String.length (a +:+ b) = (String.length a + String.length b)%nat.
Proof.
  induction a as [|x a IH]; [reflexivity|]. rewrite append_cons. simpl.
  rewrite IH. reflexivity.
Qed.

Lemma string_take_append (a b : string) : string_take (String.length a) (a +:+ b) = a.
Proof.
  induction a as [|x a IH]; [destruct b; reflexivity|].
  rewrite append_cons. simpl. rewrite IH. reflexivity.
Qed.

Lemma rev_app_append (s1 s2 : string) : String.rev_app s1 s2 = String.rev s1 +:+ s2.
Proof.
  unfold String.rev. revert s2. induction s1 as [|a s1 IH]; intros s2; simpl; [reflexivity|].
  rewrite (IH (String a s2)), (IH (String a "")), append_assoc. reflexivity.
Qed.

Lemma rev_cons (a : ascii) (s : string) : String.rev (String a s) = String.rev s +:+ String a "".
Proof. unfold String.rev at 1. simpl. apply rev_app_append. Qed.

Lemma rev_append (a b : string) : String.rev (a +:+ b) = String.rev b +:+ String.rev a.
Proof.
  induction a as [|x a IH].
  - rewrite append_nil_l, append_nil_r. reflexivity.
  - rewrite append_cons, !rev_cons, IH, append_assoc. reflexivity.
Qed.

Lemma rev_involutive (s : string) : String.rev (String.rev s) = s.
Proof.
  induction s as [|a s IH]; [reflexivity|].
  rewrite rev_cons, rev_append, IH. reflexivity.
Qed.

(** *** [strings.TrimSuffix] *)

Lemma prefix_append (p rest : string) : String.prefix p (p +:+ rest) = true.
Proof.
  induction p as [|c p IH]; [destruct rest; reflexivity|].
  rewrite append_cons. simpl. destruct (ascii_dec c c); [exact IH | contradiction].
Qed.

Lemma prefix_split (p s : string) :
  String.prefix p s = true -> exists rest, s = p +:+ rest.
Proof.
  revert s. induction p as [|c p IH]; intros s H.
  - exists s. reflexivity.
  - destruct s as [|d s]; [discriminate|]. simpl in H.
    destruct (ascii_dec c d) as [<-|]; [|discriminate].
    destruct (IH s H) as [rest ->]. exists rest. reflexivity.
Qed.

(** A string that ends with the suffix loses it. *)
Lemma strings_TrimSuffix_suffix (t suffix : string) :
  strings_TrimSuffix (t +:+ suffix) suffix = t.
Proof.
  unfold strings_TrimSuffix, strings_HasSuffix.
  rewrite rev_append, prefix_append, length_append, Nat.add_sub.
  apply string_take_append.
Qed.

(** Any other string is returned as it is. *)
Lemma strings_TrimSuffix_other (s suffix : string) :
  (forall t, s <> t +:+ suffix) -> strings_TrimSuffix s suffix = s.
Proof.
  intros Hno. unfold strings_TrimSuffix, strings_HasSuffix.
  destruct (String.prefix (String.rev suffix) (String.rev s)) eqn:E; [|reflexivity].
  apply prefix_split in E as [x Hx]. exfalso. apply (Hno (String.rev x)).
  rewrite <- (rev_involutive s), Hx, rev_append, rev_involutive. reflexivity.
Qed.

(** *** [strings.TrimSpace] *)

Lemma trim_spaces_suffix sp2 sp3 (fuel : nat) (s : string) :
  exists pre, s = pre +:+ trim_spaces sp2 sp3 fuel s.
Proof.
  revert s. induction fuel as [|fuel IH]; intros s; simpl; [exists ""; reflexivity|].
  destruct s as [|a [|b [|c r3]]]; try (exists ""; reflexivity).
  - destruct (ascii_space a); [|exists ""; reflexivity].
    destruct (IH "") as [pre Hpre]. exists (String a pre).
    rewrite append_cons, <- Hpre. reflexivity.
  - destruct (ascii_space a).
    + destruct (IH (String b "")) as [pre Hpre]. exists (String a pre).
      rewrite append_cons, <- Hpre. reflexivity.
    + destruct (sp2 a b); [|exists ""; reflexivity].
      destruct (IH "") as [pre Hpre]. exists (String a (String b pre)).
      rewrite !append_cons, <- Hpre. reflexivity.
  - destruct (ascii_space a).
    + destruct (IH (String b (String c r3))) as [pre Hpre]. exists (String a pre).
      rewrite append_cons, <- Hpre. reflexivity.
    + destruct (sp2 a b).
      * destruct (IH (String c r3)) as [pre Hpre]. exists (String a (String b pre)).
        rewrite !append_cons, <- Hpre. reflexivity.
      * destruct (sp3 a b c); [|exists ""; reflexivity].
        destruct (IH r3) as [pre Hpre]. exists (String a (String b (String c pre))).
        rewrite !append_cons, <- Hpre. reflexivity.
Qed.

Lemma trim_spaces_first sp2 sp3 (fuel : nat) (s : string) :
  (String.length s <= fuel)%nat -> first_not_space (trim_spaces sp2 sp3 fuel s).
Proof.
  revert s. induction fuel as [|fuel IH]; intros s Hlen; simpl.
  - destruct s; [exact I | simpl in Hlen; lia].
  - destruct s as [|a [|b [|c r3]]]; simpl in Hlen; try exact I.
    + destruct (ascii_space a) eqn:Ea; [apply IH; simpl; lia | exact Ea].
    + destruct (ascii_space a) eqn:Ea; [apply IH; simpl; lia|].
      destruct (sp2 a b); [apply IH; simpl; lia | exact Ea].
    + destruct (ascii_space a) eqn:Ea; [apply IH; simpl; lia|].
      destruct (sp2 a b); [apply IH; simpl; lia|].
      destruct (sp3 a b c); [apply IH; simpl; lia | exact Ea].
Qed.

(** What [strings.TrimSpace] returns is a piece of its argument... *)
Lemma strings_TrimSpace_within (s : string) :
  exists pre post, s = pre +:+ strings_TrimSpace s +:+ post.
Proof.
  unfold strings_TrimSpace.
  destruct (trim_spaces_suffix space2 space3 (String.length s) s) as [pre Hpre].
  fold trim_left in Hpre. set (l := trim_left (String.length s) s) in *.
  destruct (trim_spaces_suffix (fun a b => space2 b a) (fun a b c => space3 c b a)
              (String.length l) (String.rev l)) as [post Hpost].
  fold trim_right_rev in Hpost.
  exists pre, (String.rev post).
  rewrite <- rev_append, <- Hpost, rev_involutive. exact Hpre.
Qed.

(** ... that neither begins nor ends with a white-space byte. *)
Lemma strings_TrimSpace_edges (s : string) :
  first_not_space (strings_TrimSpace s) /\
  first_not_space (String.rev (strings_TrimSpace s)).
Proof.
  unfold strings_TrimSpace. set (l := trim_left (String.length s) s).
  assert (Hl : first_not_space l) by (apply trim_spaces_first; lia).
  set (t := trim_right_rev (String.length l) (String.rev l)).
  assert (Hlen : String.length (String.rev l) = String.length l).
  { clear. induction l as [|a l IH]; [reflexivity|].
    rewrite rev_cons, length_append, IH. simpl. lia. }
  assert (Ht : first_not_space t) by (apply trim_spaces_first; lia).
  split; [|rewrite rev_involutive; exact Ht].
  destruct (trim_spaces_suffix (fun a b => space2 b a) (fun a b c => space3 c b a)
              (String.length l) (String.rev l)) as [post Hpost].
  fold trim_right_rev in Hpost. fold t in Hpost.
  assert (Hl' : l = String.rev t +:+ String.rev post)
    by (rewrite <- rev_append, <- Hpost, rev_involutive; reflexivity).
  destruct (String.rev t) as [|a r]; [exact I|].
  rewrite Hl' in Hl. exact Hl.
Qed.

(** ** Configuration resolution *)

Lemma apply_options_cons (req : request) (opt : Option) (options : list Option) :
  apply_options req (opt :: options) = apply_options (opt req) options.
Proof. reflexivity. Qed.

Lemma apply_options_app (req : request) (o1 o2 : list Option) :
  apply_options req (o1 ++ o2) = apply_options (apply_options req o1) o2.
Proof. unfold apply_options. apply fold_left_app. Qed.

Lemma eval_options_cons_inv (c : OptionCall) (cs : list OptionCall) (opts : list Option) :
  eval_options (c :: cs) = Returns opts ->
  exists o os, opts = o :: os /\ eval_option c = Returns o /\ eval_options cs = Returns os.
Proof.
  simpl. destruct (eval_option c) as [o|v]; [|discriminate].
  destruct (eval_options cs) as [os|v]; [|discriminate].
  intros [= <-]. eauto.
Qed.

Lemma Headers_Returns_inv (hs : list string) (o : Option) :
  Headers hs = Returns o ->
  Nat.Even (List.length hs) /\
  forall req, o req =
    {| author := author req; title := title req; desc := desc req; typ := typ req;
       tok := tok req; ctx := ctx req; client := client req; baseURL := baseURL req;
       headers := hs; query := query req |}.
Proof.
  unfold Headers.
  destruct (Nat.eqb (Nat.modulo (List.length hs) 2) 0) eqn:E; simpl; [|discriminate].
  intros [= <-]. split; [|reflexivity].
  apply Nat.eqb_eq in E. apply Nat.Div0.mod_divides in E as [k Hk].
  exists k. exact Hk.
Qed.

(** A field read by [get] keeps the value of the last option that sets
    it, when each option either sets it or leaves it alone. *)
Lemma last_wins {A : Type} (get : request -> A) (sets : OptionCall -> option A) :
  (forall c o req, eval_option c = Returns o -> get (o req) = default (get req) (sets c)) ->
  forall cs opts base,
    eval_options cs = Returns opts ->
    get (apply_options base opts) = last_set sets cs (get base).
Proof.
  intros Hstep cs. unfold last_set.
  induction cs as [|c cs IH]; intros opts base Hev.
  - simpl in Hev. injection Hev as <-. reflexivity.
  - apply eval_options_cons_inv in Hev as (o & os & -> & Hc & Hcs).
    rewrite apply_options_cons, (IH os (o base) Hcs), (Hstep c o base Hc).
    clear IH.
    change (omap sets (c :: cs))
      with (match sets c with Some y => y :: omap sets cs | None => omap sets cs end).
    destruct (sets c) as [a|]; [|reflexivity].
    rewrite last_cons. destruct (last (omap sets cs)); reflexivity.
Qed.

Ltac option_step :=
  let c := fresh "c" in
  let o := fresh "o" in
  let req := fresh "req" in
  let H := fresh "H" in
  intros c o req H; destruct c; simpl in H;
  try (injection H as <-; reflexivity);
  apply Headers_Returns_inv in H as [_ H]; rewrite H; reflexivity.

(** C8. Resolution applies the options from first to last, and every
    scalar field of the resolved configuration (author, title, description,
    type, token, context, client, base URL, query) holds the value of the
    last option that sets it, or the base value when no option does.
    Resolution is a function of the base configuration and the options only:
    it returns the resolved [request] and nothing else. *)
Theorem C8_last_option_wins (base : request) (cs : list OptionCall) (opts : list Option)
    (Hev : eval_options cs = Returns opts) :
  let req := apply_options base opts in
  (forall o1 o2, apply_options base (o1 ++ o2) = apply_options (apply_options base o1) o2) /\
  (forall o os, apply_options base (o :: os) = apply_options (o base) os) /\
  apply_options base [] = base /\
  author req = last_set sets_author cs (author base) /\
  title req = last_set sets_title cs (title base) /\
  desc req = last_set sets_desc cs (desc base) /\
  typ req = last_set sets_typ cs (typ base) /\
  tok req = last_set sets_tok cs (tok base) /\
  ctx req = last_set sets_ctx cs (ctx base) /\
  client req = last_set sets_client cs (client base) /\
  baseURL req = last_set sets_baseURL cs (baseURL base) /\
  query req = last_set sets_query cs (query base).
Proof.
  simpl.
  split; [intros; apply apply_options_app|].
  split; [reflexivity|]. split; [reflexivity|].
  repeat split.
  - apply (last_wins author sets_author); [option_step | exact Hev].
  - apply (last_wins title sets_title); [option_step | exact Hev].
  - apply (last_wins desc sets_desc); [option_step | exact Hev].
  - apply (last_wins typ sets_typ); [option_step | exact Hev].
  - apply (last_wins tok sets_tok); [option_step | exact Hev].
  - apply (last_wins ctx sets_ctx); [option_step | exact Hev].
  - apply (last_wins client sets_client); [option_step | exact Hev].
  - apply (last_wins baseURL sets_baseURL); [option_step | exact Hev].
  - apply (last_wins query sets_query); [option_step | exact Hev].
Qed.

(** ** Extra headers *)



(** Every panic of an option expression is the one of [Headers]. *)
Lemma eval_option_Panics (c : OptionCall) (v : string) :
  eval_option c = Panics v -> v = "invalid headers".
Proof.
  destruct c; simpl; try discriminate.
  unfold Headers. destruct (negb _); [|discriminate]. congruence.
Qed.

Lemma eval_options_Panics (cs : list OptionCall) (v : string) :
  eval_options cs = Panics v -> v = "invalid headers".
Proof.
  revert v. induction cs as [|c cs IH]; intros v; simpl; [discriminate|].
  destruct (eval_option c) as [o|v'] eqn:Ec.
  - destruct (eval_options cs) as [os|v'']; [discriminate|].
    intros [= <-]. apply IH. reflexivity.
  - intros [= <-]. eapply eval_option_Panics, Ec.
Qed.



Lemma set_header_pairs_fold (hs : list string) (h : Header) :
  set_header_pairs hs h =
  fold_left (fun h' kv => Header_Set (fst kv) (snd kv) h') (pairs hs) h.
Proof.
  enough (H : forall h',
    set_header_pairs hs h' =
      fold_left (fun h0 kv => Header_Set (fst kv) (snd kv) h0) (pairs hs) h' /\
    forall key, set_header_pairs (key :: hs) h' =
      fold_left (fun h0 kv => Header_Set (fst kv) (snd kv) h0) (pairs (key :: hs)) h')
    by apply H.
  induction hs as [|value rest IH]; intros h'.
  - split; reflexivity.
  - split; [apply IH|]. intros key. simpl. apply IH.
Qed.



(** ** Request headers *)

Lemma Header_Get_Set (key value : string) (h : Header) :
  Header_Get key (Header_Set key value h) = value.
Proof. unfold Header_Get, Header_Set. rewrite lookup_insert_eq. reflexivity. Qed.

Lemma Header_Get_Set_ne (key key' value : string) (h : Header) :
  CanonicalMIMEHeaderKey key' <> CanonicalMIMEHeaderKey key ->
  Header_Get key (Header_Set key' value h) = Header_Get key h.
Proof.
  intros Hne. unfold Header_Get, Header_Set.
  rewrite lookup_insert_ne by exact Hne. reflexivity.
Qed.

(** *** Canonical keys *)

Lemma to_lower_cases (c : ascii) :
  validHeaderFieldByte (to_lower c) = validHeaderFieldByte c /\
  to_upper (to_lower c) = to_upper c /\
  to_lower (to_lower c) = to_lower c /\
  to_lower (to_upper c) = to_lower c.
Proof. destruct c as [[] [] [] [] [] [] [] []]; repeat split. Qed.

Lemma all_valid_lower (s : string) :
  all_bytes validHeaderFieldByte (string_lower s) = all_bytes validHeaderFieldByte s.
Proof.
  induction s as [|c s IH]; simpl; [reflexivity|].
  rewrite IH. destruct (to_lower_cases c) as (-> & _). reflexivity.
Qed.

Lemma canonical_case_lower (upper : bool) (s : string) :
  canonical_case upper (string_lower s) = canonical_case upper s.
Proof.
  revert upper. induction s as [|c s IH]; intros upper; simpl; [reflexivity|].
  destruct (to_lower_cases c) as (_ & Hup & Hlow & _).
  destruct upper; [rewrite Hup | rewrite Hlow]; rewrite IH; reflexivity.
Qed.

Lemma lower_canonical_case (upper : bool) (s : string) :
  string_lower (canonical_case upper s) = string_lower s.
Proof.
  revert upper. induction s as [|c s IH]; intros upper; simpl; [reflexivity|].
  destruct (to_lower_cases c) as (_ & _ & Hlow & Hlu).
  rewrite IH. destruct upper; [rewrite Hlu | rewrite Hlow]; reflexivity.
Qed.

(** A canonical key that names a header, in whatever case, is the
    canonical form of the name. *)
Lemma canonical_key_unique (key name : string) :
  all_bytes validHeaderFieldByte name = true ->
  string_lower (CanonicalMIMEHeaderKey key) = string_lower name ->
  CanonicalMIMEHeaderKey key = canonical_case true name.
Proof.
  intros Hname. unfold CanonicalMIMEHeaderKey.
  destruct (all_bytes validHeaderFieldByte key) eqn:Hkey; intros H.
  - rewrite lower_canonical_case in H.
    rewrite <- (canonical_case_lower true key), H. apply canonical_case_lower.
  - rewrite <- all_valid_lower, H, all_valid_lower in Hkey. congruence.
Qed.

Lemma canonical_keys_empty : canonical_keys ∅.
Proof. intros k vs H. rewrite lookup_empty in H. discriminate. Qed.

Lemma canonical_keys_Set (key value : string) (h : Header) :
  canonical_keys h -> canonical_keys (Header_Set key value h).
Proof.
  intros Hh k vs. unfold Header_Set.
  destruct (decide (CanonicalMIMEHeaderKey key = k)) as [<-|Hne].
  - intros _. eauto.
  - rewrite lookup_insert_ne by exact Hne. apply Hh.
Qed.

Lemma canonical_keys_pairs (hs : list string) (h : Header) :
  canonical_keys h -> canonical_keys (set_header_pairs hs h).
Proof.
  rewrite set_header_pairs_fold. revert h.
  induction (pairs hs) as [|[k v] ps IH]; intros h Hh; simpl; [exact Hh|].
  apply IH, canonical_keys_Set, Hh.
Qed.

Lemma ReqHeader_attach_ctx (req : request) (hr : HttpRequest) :
  ReqHeader (attach_ctx req hr) = ReqHeader hr.
Proof. unfold attach_ctx. destruct (ctx req); reflexivity. Qed.

Lemma ReqHeader_set_token (req : request) (hr : HttpRequest) :
  ReqHeader (set_token req hr) =
  if String.eqb (tok req) "" then ReqHeader hr
  else Header_Set "Authorization" ("Bearer " +:+ tok req) (ReqHeader hr).
Proof. unfold set_token. destruct (String.eqb (tok req) ""); reflexivity. Qed.

Lemma ReqHeader_upload_request (req : request) (contentType : string) (hr : HttpRequest) :
  ReqHeader (upload_request req contentType hr) =
  let h := Header_Set "Content-Type" contentType
             (set_header_pairs (headers req) (ReqHeader hr)) in
  if String.eqb (tok req) "" then h
  else Header_Set "Authorization" ("Bearer " +:+ tok req) h.
Proof.
  unfold upload_request. rewrite ReqHeader_set_token, ReqHeader_attach_ctx. reflexivity.
Qed.

Lemma canonical_keys_upload_request (req : request) (contentType : string) (hr : HttpRequest) :
  canonical_keys (ReqHeader hr) ->
  canonical_keys (ReqHeader (upload_request req contentType hr)).
Proof.
  intros Hh. rewrite ReqHeader_upload_request. simpl.
  assert (H0 : canonical_keys
            (Header_Set "Content-Type" contentType
               (set_header_pairs (headers req) (ReqHeader hr))))
    by apply canonical_keys_Set, canonical_keys_pairs, Hh.
  destruct (String.eqb (tok req) ""); [exact H0 | apply canonical_keys_Set, H0].
Qed.

Lemma URL_upload_request (req : request) (contentType : string) (hr : HttpRequest) :
  URL (upload_request req contentType hr) = URL hr /\
  Method (upload_request req contentType hr) = Method hr.
Proof.
  unfold upload_request, set_token, attach_ctx.
  destruct (negb _), (ctx req); split; reflexivity.
Qed.

(** *** The fields of an [upload] run *)

Lemma upload_unfold (r : Reader) (req0 : request) (options : list Option) :
  upload r req0 options =
  let b := upload_body r req0 options in
  let a := advance (producer_state b.2) (closeRead None (pipe_state b.2)) in
  {| returned := b.1.1; sent := b.1.2; done := result b.2; body_sent := body_read b.2;
     end_pipe := a.2; end_producer := a.1 |}.
Proof.
  unfold upload. destruct (upload_body r req0 options) as [[res hrs] s]. simpl.
  destruct (advance _ _). reflexivity.
Qed.

Lemma upload_sent (r : Reader) (req0 : request) (options : list Option) :
  sent (upload r req0 options) =
  let req := apply_options req0 options in
  match http_NewRequest "POST" (pick_baseURL req) PipeReader with
  | inr _ => []
  | inl hr => [upload_request req (FormDataContentType boundary) hr]
  end.
Proof.
  rewrite upload_unfold. unfold upload_body. simpl.
  destruct (http_NewRequest _ _ _) as [hr|err]; reflexivity.
Qed.

(** C9. Every request that [upload] sends has the multipart writer's
    content type, boundary included, as its only [Content-Type], whatever
    the extra headers say, and, when the token is not empty, [Bearer] and
    the token as its only [Authorization]: both are set after the extra
    headers. No key of the request names one of the two headers in another
    case. *)
Theorem C9_forced_headers (r : Reader) (req0 : request) (options : list Option)
    (hr : HttpRequest) (Hsent : In hr (sent (upload r req0 options))) :
  let req := apply_options req0 options in
  Header_Get "Content-Type" (ReqHeader hr) = FormDataContentType boundary /\
  ReqHeader hr !! "Content-Type" = Some [FormDataContentType boundary] /\
  (tok req <> "" ->
     Header_Get "Authorization" (ReqHeader hr) = "Bearer " +:+ tok req /\
     ReqHeader hr !! "Authorization" = Some ["Bearer " +:+ tok req]) /\
  (forall k vs, ReqHeader hr !! k = Some vs ->
     (string_lower k = "content-type" -> k = "Content-Type") /\
     (string_lower k = "authorization" -> k = "Authorization")).
Proof.
  intros req. rewrite upload_sent in Hsent. simpl in Hsent. fold req in Hsent.
  unfold http_NewRequest in Hsent.
  destruct (url_Parse (pick_baseURL req)) as [u|err]; [|contradiction].
  destruct Hsent as [<- | []].
  assert (Hkeys := canonical_keys_upload_request req (FormDataContentType boundary)
            {| Method := "POST"; URL := u; ReqHeader := ∅;
               ReqCtx := None; Body := PipeReader |} canonical_keys_empty).
  assert (Hcase : forall k vs,
    ReqHeader (upload_request req (FormDataContentType boundary)
      {| Method := "POST"; URL := u; ReqHeader := ∅;
         ReqCtx := None; Body := PipeReader |}) !! k = Some vs ->
    (string_lower k = "content-type" -> k = "Content-Type") /\
    (string_lower k = "authorization" -> k = "Authorization")).
  { intros k vs Hk. destruct (Hkeys k vs Hk) as [key ->].
    split; intros Hlow.
    - apply (canonical_key_unique key "content-type"); [reflexivity | exact Hlow].
    - apply (canonical_key_unique key "authorization"); [reflexivity | exact Hlow]. }
  clear Hkeys. revert Hcase.
  rewrite ReqHeader_upload_request. simpl. intros Hcase.
  destruct (String.eqb (tok req) "") eqn:Etok.
  - split; [apply Header_Get_Set|].
    split; [apply lookup_insert_eq|].
    split; [|exact Hcase].
    intros Hne. apply String.eqb_eq in Etok. contradiction.
  - split; [rewrite Header_Get_Set_ne by discriminate; apply Header_Get_Set|].
    split; [unfold Header_Set at 1; rewrite lookup_insert_ne by discriminate;
            apply lookup_insert_eq|].
    split; [|exact Hcase].
    intros _. split; [apply Header_Get_Set | apply lookup_insert_eq].
Qed.

Lemma upload_done (r : Reader) (req0 : request) (options : list Option) :
  done (upload r req0 options) =
  let req := apply_options req0 options in
  match http_NewRequest "POST" (pick_baseURL req) PipeReader with
  | inr _ => None
  | inl hr =>
      result (serve (Do (pick_client req) (upload_request req (FormDataContentType boundary) hr))
                [] (goroutine req r) io_Pipe)
  end.
Proof.
  rewrite upload_unfold. unfold upload_body. simpl.
  destruct (http_NewRequest _ _ _) as [hr|err]; reflexivity.
Qed.

Lemma upload_returned (r : Reader) (req0 : request) (options : list Option) :
  returned (upload r req0 options) =
  let req := apply_options req0 options in
  match http_NewRequest "POST" (pick_baseURL req) PipeReader with
  | inr err => Some (Returns ("", Some err))
  | inl hr => upload_result <$> done (upload r req0 options)
  end.
Proof.
  rewrite upload_done, upload_unfold. unfold upload_body. simpl.
  destruct (http_NewRequest _ _ _) as [hr|err]; reflexivity.
Qed.

Lemma upload_returned_done (r : Reader) (req0 : request) (options : list Option)
    (res : DoResult) :
  done (upload r req0 options) = Some res ->
  returned (upload r req0 options) = Some (upload_result res).
Proof.
  intros Hdone. rewrite upload_returned. simpl. rewrite Hdone.
  rewrite upload_done in Hdone. simpl in Hdone.
  destruct (http_NewRequest _ _ _); [reflexivity | discriminate].
Qed.

(** Whatever [client.Do] ends with, [upload] returns an empty string with
    any error. *)
Lemma upload_result_error (res : DoResult) (u : string) (e : error) :
  upload_result res = Returns (u, Some e) -> u = "".
Proof.
  unfold upload_result. destruct res as [[resp|err]|v]; [|congruence|discriminate].
  simpl. destruct (read_err (RespBody resp)); [congruence|].
  destruct (negb _); congruence.
Qed.

(** When the read of the response body fails, [upload] returns that error,
    whatever the status. *)
Lemma upload_body_read_error (r : Reader) (req0 : request) (options : list Option)
    (resp : Response) (e : error) :
  done (upload r req0 options) = Some (Returns (inl resp)) ->
  read_err (RespBody resp) = Some e ->
  returned (upload r req0 options) = Some (Returns ("", Some e)).
Proof.
  intros Hdone He. rewrite (upload_returned_done _ _ _ _ Hdone).
  unfold upload_result, ioutil_ReadAll. rewrite He. reflexivity.
Qed.


(** When the transport panics, so does [upload]. *)
Lemma upload_send_panic (r : Reader) (req0 : request) (options : list Option) (v : string) :
  done (upload r req0 options) = Some (Panics v) ->
  returned (upload r req0 options) = Some (Panics v).
Proof. intros Hdone. rewrite (upload_returned_done _ _ _ _ Hdone). reflexivity. Qed.

(** C3, as the code has it. When the request of an upload has executed,
    that is, [client.Do] has returned a response: if reading the response
    body fails, the upload returns the error of the read and no URL,
    whatever the status, 201 included; if the body is read to its end, the
    upload succeeds exactly when the status is 201, and then returns the
    body without its surrounding white space as the paste URL, and for any
    other status it returns the error of [errors.New] whose message is the
    body without its surrounding white space. So the upload succeeds
    exactly when the status is 201 and the body was read to its end. It
    never returns both a URL and an error. The trimmed body is a piece of
    the body that neither begins nor ends with a white-space byte. *)
Theorem C3_status_201 (r : Reader) (req0 : request) (options : list Option)
    (resp : Response)
    (Hdone : done (upload r req0 options) = Some (Returns (inl resp))) :
  let out := returned (upload r req0 options) in
  let status := StatusCode resp in
  (forall body e, ioutil_ReadAll (RespBody resp) = (body, Some e) ->
     out = Some (Returns ("", Some e))) /\
  (forall body, ioutil_ReadAll (RespBody resp) = (body, None) ->
     (status = 201 -> out = Some (Returns (strings_TrimSpace body, None))) /\
     (status <> 201 ->
        out = Some (Returns ("", Some (errors_New (strings_TrimSpace body)))) /\
        exists e, out = Some (Returns ("", Some e)) /\
                  Error e = Some (strings_TrimSpace body))) /\
  ((exists u, out = Some (Returns (u, None))) <->
   status = 201 /\ (ioutil_ReadAll (RespBody resp)).2 = None) /\
  (forall u e, out = Some (Returns (u, Some e)) -> u = "") /\
  (forall body,
     (exists pre post, body = pre +:+ strings_TrimSpace body +:+ post) /\
     first_not_space (strings_TrimSpace body) /\
     first_not_space (String.rev (strings_TrimSpace body))).
Proof.
  cbv zeta. rewrite (upload_returned_done _ _ _ _ Hdone). unfold upload_result.
  destruct (ioutil_ReadAll (RespBody resp)) as [result [e|]]; cbn [snd].
  - split; [intros body e' [= _ <-]; reflexivity|].
    split; [intros body [= _ H]; discriminate H|].
    split; [split; [intros [u Hu]; discriminate Hu | intros [_ H]; discriminate H]|].
    split; [intros u e' [= <- _]; reflexivity|].
    intros body. exact (conj (strings_TrimSpace_within body) (strings_TrimSpace_edges body)).
  - split; [intros body e' [= _ H]; discriminate H|].
    destruct (StatusCode resp =? 201) eqn:E; cbn [negb].
    + apply Z.eqb_eq in E.
      split; [intros body [= <-]; split; [reflexivity | intros H; contradiction]|].
      split; [split; [intros _; split; [exact E | reflexivity] | intros _; eexists; reflexivity]|].
      split; [intros u e' [= _ H]; discriminate H|].
      intros body. exact (conj (strings_TrimSpace_within body) (strings_TrimSpace_edges body)).
    + apply Z.eqb_neq in E.
      split.
      { intros body [= <-]. split; [intros H; contradiction|].
        intros _. split; [reflexivity|]. eexists. split; reflexivity. }
      split; [split; [intros [u Hu]; discriminate Hu | intros [H _]; contradiction]|].
      split; [intros u e' [= <- _]; reflexivity|].
      intros body. exact (conj (strings_TrimSpace_within body) (strings_TrimSpace_edges body)).
Qed.

(** ** The two ends of the pipe *)

Arguments pipe_done : simpl never.
Arguments writeCloseError : simpl never.
Arguments readCloseError : simpl never.
Arguments CloseWithError : simpl never.
Arguments closeRead : simpl never.

Lemma pipe_done_CloseWithError (err : option error) (pi : pipe) :
  pipe_done (CloseWithError err pi) = true.
Proof.
  unfold pipe_done, CloseWithError, store_once. simpl.
  destruct (werr pi); simpl; rewrite orb_true_r; reflexivity.
Qed.


(** What the transport has read is what it had seen and then a prefix of
    the goroutine's writes. *)
Lemma serve_body_read (t : Transport) (p : Producer) :
  forall seen pi, exists n,
    body_read (serve t seen p pi) = seen ++ take n (writes p pi).
Proof.
  induction p as [c k IH|err k IH|]; intros seen pi; simpl.
  - destruct (pipe_done pi); [apply IH|].
    destruct (t seen).
    + destruct (IH None (seen ++ [c]) pi) as [n Hn].
      exists (S n). rewrite Hn, <- app_assoc. reflexivity.
    + exists 0%nat. simpl. rewrite app_nil_r. reflexivity.
  - apply IH.
  - exists 0%nat. simpl. rewrite app_nil_r. reflexivity.
Qed.

(** A transport that reads on reads all of them. *)
Lemma serve_body_read_all (t : Transport) (Ht : reads_on t) (p : Producer) :
  forall seen pi, body_read (serve t seen p pi) = seen ++ writes p pi.
Proof.
  induction p as [c k IH|err k IH|]; intros seen pi; simpl.
  - destruct (pipe_done pi); [apply IH|].
    destruct (Ht seen) as (on_eof & on_err & ->).
    rewrite IH, <- app_assoc. reflexivity.
  - apply IH.
  - rewrite app_nil_r. reflexivity.
Qed.

Lemma reads_on_read_all : reads_on read_all.
Proof. intros seen. unfold read_all. eauto. Qed.

Lemma full_body_writes (p : Producer) : full_body p = writes p io_Pipe.
Proof. unfold full_body. apply (serve_body_read_all _ reads_on_read_all). Qed.

(** *** The writes of the goroutine *)

Lemma writes_write_field_if (name value : string) (next : Producer) (pi : pipe) :
  pipe_done pi = false ->
  writes (write_field_if name value next) pi = field_chunks name value ++ writes next pi.
Proof.
  intros Hopen. unfold write_field_if, field_chunks.
  destruct (String.eqb value ""); simpl; [reflexivity|].
  rewrite Hopen. reflexivity.
Qed.

Lemma writes_copy_reads (rs : list string) (last : error)
    (k : option error -> Producer) (pi : pipe) :
  pipe_done pi = false ->
  writes (copy_reads rs last k) pi =
  data_chunks rs ++ writes (k (if is_EOF last then None else Some last)) pi.
Proof.
  intros Hopen. induction rs as [|d rest IH]; simpl; [reflexivity|].
  destruct (String.eqb d ""); [exact IH|].
  simpl. rewrite Hopen, IH. reflexivity.
Qed.

Lemma writes_goroutine (req : request) (r : Reader) :
  writes (goroutine req r) io_Pipe = body_chunks req r.
Proof.
  unfold goroutine, body_chunks.
  rewrite !writes_write_field_if by reflexivity.
  do 4 f_equal. simpl. f_equal.
  unfold io_Copy. rewrite writes_copy_reads by reflexivity. f_equal.
  destruct (is_EOF (last_err r)); reflexivity.
Qed.

(** *** The parts of the body *)

Lemma leading_data_field_chunks (name value : string) (rest : list chunk) :
  leading_data rest = "" -> leading_data (field_chunks name value ++ rest) = "".
Proof.
  intros Hrest. unfold field_chunks. destruct (String.eqb value ""); [exact Hrest|reflexivity].
Qed.

Lemma parts_of_field_chunks (name value : string) (rest : list chunk) :
  leading_data rest = "" ->
  parts_of (field_chunks name value ++ rest) = text_parts name value ++ parts_of rest.
Proof.
  intros Hrest. unfold field_chunks, text_parts.
  destruct (String.eqb value ""); [reflexivity|].
  simpl. rewrite Hrest, append_nil_r. reflexivity.
Qed.

Lemma leading_data_data_chunks (rs : list string) (rest : list chunk) :
  leading_data (data_chunks rs ++ rest) = string_concat rs +:+ leading_data rest.
Proof.
  induction rs as [|d rs IH]; simpl; [reflexivity|].
  destruct (String.eqb d "") eqn:E.
  - apply String.eqb_eq in E. subst d. exact IH.
  - simpl. rewrite IH, append_assoc. reflexivity.
Qed.

Lemma parts_of_data_chunks (rs : list string) (rest : list chunk) :
  parts_of (data_chunks rs ++ rest) = parts_of rest.
Proof.
  induction rs as [|d rs IH]; simpl; [reflexivity|].
  destruct (String.eqb d ""); [exact IH | exact IH].
Qed.

Lemma parts_of_body_chunks (req : request) (r : Reader) :
  parts_of (body_chunks req r) =
  text_parts "author" (author req) ++ text_parts "title" (title req)
  ++ text_parts "desc" (desc req) ++ text_parts "type" (typ req)
  ++ [file_part (payload_bytes r)].
Proof.
  unfold body_chunks.
  rewrite !parts_of_field_chunks;
    repeat first [reflexivity | apply leading_data_field_chunks].
  do 4 f_equal. simpl.
  rewrite leading_data_data_chunks, parts_of_data_chunks.
  unfold file_part, payload_bytes.
  destruct (is_EOF (last_err r)); simpl; rewrite append_nil_r; reflexivity.
Qed.

Lemma text_part_names (req : request) (r : Reader) :
  map part_name (parts_of (body_chunks req r))
    `sublist_of` ["author"; "title"; "desc"; "type"; "file"].
Proof.
  rewrite parts_of_body_chunks. unfold text_parts.
  destruct (String.eqb (author req) ""), (String.eqb (title req) ""),
    (String.eqb (desc req) ""), (String.eqb (typ req) ""); simpl;
    repeat first [apply sublist_nil | apply sublist_skip | apply sublist_cons].
Qed.

Lemma upload_body_sent (r : Reader) (req0 : request) (options : list Option) :
  body_sent (upload r req0 options) =
  let req := apply_options req0 options in
  match http_NewRequest "POST" (pick_baseURL req) PipeReader with
  | inr _ => []
  | inl hr =>
      body_read (serve (Do (pick_client req) (upload_request req (FormDataContentType boundary) hr))
                   [] (goroutine req r) io_Pipe)
  end.
Proof.
  rewrite upload_unfold. unfold upload_body. simpl.
  destruct (http_NewRequest _ _ _) as [hr|err]; reflexivity.
Qed.

(** C2. The body that the goroutine writes for a resolved configuration,
    read to its end, has these parts: the text fields author, title, desc
    and type in this order, each present exactly when its value is not
    empty, then one part named [file] with file name [-] whose content is
    the bytes of the payload in order. The names follow the fixed order
    whatever options led to the configuration, and what a transport has read
    of the body is a prefix of it, all of it when the transport reads on. *)
Theorem C2_multipart_fields (r : Reader) (req0 : request) (options : list Option) :
  let req := apply_options req0 options in
  let body := full_body (goroutine req r) in
  parts_of body =
    text_parts "author" (author req) ++ text_parts "title" (title req)
    ++ text_parts "desc" (desc req) ++ text_parts "type" (typ req)
    ++ [file_part (payload_bytes r)] /\
  map part_name (parts_of body) `sublist_of` ["author"; "title"; "desc"; "type"; "file"] /\
  body_sent (upload r req0 options) `prefix_of` body /\
  (forall hr, In hr (sent (upload r req0 options)) ->
     reads_on (Do (pick_client req) hr) ->
     body_sent (upload r req0 options) = body).
Proof.
  intros req body. unfold body.
  rewrite full_body_writes, writes_goroutine.
  split; [apply parts_of_body_chunks|].
  split; [apply text_part_names|].
  rewrite upload_body_sent, upload_sent. simpl. fold req.
  destruct (http_NewRequest _ _ _) as [hr0|err].
  - split.
    + destruct (serve_body_read
                  (Do (pick_client req) (upload_request req (FormDataContentType boundary) hr0))
                  (goroutine req r) [] io_Pipe) as [n Hn].
      rewrite Hn, writes_goroutine. simpl. apply prefix_take.
    + intros hr [<- | []] Hreads.
      rewrite (serve_body_read_all _ Hreads), writes_goroutine. reflexivity.
  - split; [apply prefix_nil | intros hr []].
Qed.

(** *** Shutdown of the pipe *)




(** The writer's close error, once stored, stays. *)
Lemma advance_werr (p : Producer) :
  forall pi e, werr pi = Some e -> werr (advance p pi).2 = Some e.
Proof.
  induction p as [c k IH|err k IH|]; intros pi e Hw; simpl.
  - destruct (pipe_done pi); [apply IH, Hw | exact Hw].
  - apply IH. unfold CloseWithError. simpl. rewrite Hw. reflexivity.
  - exact Hw.
Qed.





(** *** The goroutine's calls of [CloseWithError] *)








(** *** The goroutine against a transport that reads on *)

Lemma serve_write_field_if (t : Transport) (Ht : reads_on t)
    (name value : string) (next : Producer) (seen : list chunk) (pi : pipe) :
  pipe_done pi = false ->
  serve t seen (write_field_if name value next) pi =
  serve t (seen ++ field_chunks name value) next pi.
Proof.
  intros Hopen. unfold write_field_if, field_chunks.
  destruct (String.eqb value ""); simpl; [rewrite app_nil_r; reflexivity|].
  rewrite Hopen. destruct (Ht seen) as (on_eof & on_err & ->).
  destruct (Ht (seen ++ [PartHeader name None])) as (on_eof' & on_err' & ->).
  rewrite <- app_assoc. reflexivity.
Qed.

Lemma serve_copy_reads (t : Transport) (Ht : reads_on t)
    (rs : list string) (last : error) (k : option error -> Producer) (pi : pipe) :
  pipe_done pi = false ->
  forall seen,
    serve t seen (copy_reads rs last k) pi =
    serve t (seen ++ data_chunks rs) (k (if is_EOF last then None else Some last)) pi.
Proof.
  intros Hopen. induction rs as [|d rest IH]; intros seen; simpl.
  - rewrite app_nil_r. reflexivity.
  - destruct (String.eqb d ""); [apply IH|].
    simpl. rewrite Hopen. destruct (Ht seen) as (on_eof & on_err & ->).
    rewrite IH, <- app_assoc. reflexivity.
Qed.

(** The run of the goroutine when the transport reads the whole body: all
    the writes go through, and the pipe ends closed by the writer, with the
    payload's error if it has one. *)
Lemma serve_goroutine (t : Transport) (Ht : reads_on t) (req : request) (r : Reader) :
  serve t [] (goroutine req r) io_Pipe =
  {| result :=
       match t (body_chunks req r) with
       | KeepReading on_eof on_err =>
           Some (if is_EOF (last_err r) then on_eof else on_err (last_err r))
       | Stop res => Some res
       end;
     body_read := body_chunks req r;
     producer_state := PExit;
     pipe_state :=
       CloseWithError (if is_EOF (last_err r) then None else Some (last_err r)) io_Pipe |}.
Proof.
  unfold goroutine, body_chunks.
  rewrite !(serve_write_field_if t Ht) by reflexivity.
  simpl app at 1.
  change (multipart_CreateFormFile "file" "-" ?k) with (PWrite (PartHeader "file" (Some "-")) k).
  cbn [serve]. change (pipe_done io_Pipe) with false. cbv iota.
  destruct (Ht (field_chunks "author" (author req) ++ field_chunks "title" (title req)
                ++ field_chunks "desc" (desc req) ++ field_chunks "type" (typ req)))
    as (on_eof & on_err & Hread).
  rewrite !app_assoc in Hread |- *. rewrite Hread. clear Hread on_eof on_err.
  unfold io_Copy. rewrite (serve_copy_reads t Ht) by reflexivity.
  rewrite <- !app_assoc. simpl app.
  destruct (is_EOF (last_err r)) eqn:Hlast.
  - unfold goroutine_deferred, multipart_Close. cbn [serve].
    change (pipe_done io_Pipe) with false. cbv iota.
    match goal with |- context [t ?l] => destruct (Ht l) as (on_eof & on_err & Hread) end.
    rewrite Hread.
    rewrite pipe_done_CloseWithError.
    rewrite <- !app_assoc. simpl app.
    match goal with |- context [t ?l] => destruct (t l) end; reflexivity.
  - cbn [serve]. unfold goroutine_deferred, multipart_Close. cbn [serve].
    rewrite pipe_done_CloseWithError.
    rewrite !app_nil_r.
    change (readCloseError (CloseWithError (Some (last_err r)) io_Pipe)) with (last_err r).
    rewrite Hlast.
    match goal with |- context [t ?l] => destruct (t l) end; reflexivity.
Qed.

Lemma derived_from_refl (e : error) : derived_from e e.
Proof. destruct e; left; reflexivity. Qed.

Lemma derived_from_url_Error (cause e : error) (op url : string) :
  derived_from cause e -> derived_from cause (url_Error op url e).
Proof. intros H. right. exact H. Qed.

Lemma sends_body_reads_on (t : Transport) : sends_body t -> reads_on t.
Proof. intros Ht seen. destruct (Ht seen) as (on_eof & on_err & -> & _). eauto. Qed.

(** With no reader and the pipe left open, the goroutine stays blocked in
    its first write: this is what the deferred close prevents. *)
Lemma goroutine_blocks_on_open_pipe (req : request) (r : Reader) :
  exists c k, (advance (goroutine req r) io_Pipe).1 = PBlocked c k.
Proof.
  unfold goroutine, write_field_if.
  destruct (negb (String.eqb (author req) "")), (negb (String.eqb (title req) "")),
    (negb (String.eqb (desc req) "")), (negb (String.eqb (typ req) ""));
    simpl; eauto.
Qed.





(** ** Paste references *)

Lemma string_drop_append (p rest : string) :
  string_drop (String.length p) (p +:+ rest) = rest.
Proof. induction p as [|c p IH]; [reflexivity | exact IH]. Qed.

Lemma index_from_eq (s substr : string) :
  index_from s substr =
  if String.prefix substr s then Some 0%nat
  else match s with
       | EmptyString => None
       | String _ s' => S <$> index_from s' substr
       end.
Proof. destruct s; reflexivity. Qed.

Lemma index_from_contains (s substr : string) :
  (exists n, index_from s substr = Some n) <-> contains s substr.
Proof.
  split.
  - intros [n Hn]. revert n Hn. induction s as [|c s IH]; intros n Hn;
      rewrite index_from_eq in Hn.
    + destruct (String.prefix substr "") eqn:Hp; [|discriminate].
      apply prefix_split in Hp as [rest Hrest]. exists "", rest. exact Hrest.
    + destruct (String.prefix substr (String c s)) eqn:Hp.
      * apply prefix_split in Hp as [rest Hrest]. exists "", rest. exact Hrest.
      * destruct (index_from s substr) as [m|] eqn:Hm; [|discriminate].
        destruct (IH m eq_refl) as (a & b & ->). exists (String c a), b. reflexivity.
  - intros (a & b & ->). induction a as [|c a IH].
    + exists 0%nat. rewrite index_from_eq, append_nil_l, prefix_append. reflexivity.
    + rewrite index_from_eq, append_cons.
      destruct (String.prefix substr (String c (a +:+ substr +:+ b))); [eauto|].
      destruct IH as [n ->]. simpl. eauto.
Qed.

Lemma strings_Index_contains (s substr : string) :
  strings_Index s substr <> -1 <-> contains s substr.
Proof.
  rewrite <- index_from_contains. unfold strings_Index.
  destruct (index_from s substr) as [n|].
  - split; [eauto | lia].
  - split; [congruence | intros [n Hn]; discriminate].
Qed.

Lemma string_mem_has_char (c : ascii) (chars : string) :
  string_mem c chars = true <-> has_char c chars.
Proof.
  induction chars as [|d chars IH]; simpl.
  - split; [discriminate|]. intros (a & b & H). destruct a; discriminate.
  - destruct (Ascii.eqb c d) eqn:E.
    + apply Ascii.eqb_eq in E as <-. split; [|reflexivity].
      intros _. exists "", chars. reflexivity.
    + apply Ascii.eqb_neq in E. rewrite IH. split.
      * intros (a & b & ->). exists (String d a), b. reflexivity.
      * intros (a & b & H). destruct a as [|x a].
        -- injection H as -> ->. contradiction.
        -- rewrite append_cons in H. injection H as -> ->. exists a, b. reflexivity.
Qed.

Lemma strings_ContainsAny_spec (s chars : string) :
  strings_ContainsAny s chars = true <-> exists c, has_char c chars /\ has_char c s.
Proof.
  induction s as [|d s IH]; simpl.
  - split; [discriminate|]. intros (c & _ & a & b & H). destruct a; discriminate.
  - destruct (string_mem d chars) eqn:E.
    + split; [|reflexivity]. intros _. exists d. split.
      * apply string_mem_has_char, E.
      * exists "", s. reflexivity.
    + rewrite IH. split.
      * intros (c & Hc & a & b & ->). exists c. split; [exact Hc|].
        exists (String d a), b. reflexivity.
      * intros (c & Hc & a & b & H). destruct a as [|x a].
        -- injection H as -> ->. apply string_mem_has_char in Hc. congruence.
        -- rewrite append_cons in H. injection H as -> ->. exists c. split; [exact Hc|].
           exists a, b. reflexivity.
Qed.

Lemma clean_ContainsAny (s : string) :
  clean s <-> strings_ContainsAny s "./#?" = false.
Proof.
  unfold clean. split.
  - intros H. destruct (strings_ContainsAny s "./#?") eqn:E; [|reflexivity].
    apply strings_ContainsAny_spec in E as (c & Hc & Hs). destruct (H c Hc Hs).
  - intros E c Hc Hs.
    assert (strings_ContainsAny s "./#?" = true) by (apply strings_ContainsAny_spec; eauto).
    congruence.
Qed.

Lemma known_prefix_contains (id : string) : contains (known_prefix +:+ id) "://".
Proof. exists "https", ("www.paste.run/" +:+ id). reflexivity. Qed.

(** A well-formed reference passes the check and gives the fetch URL. *)
Lemma pasteURL_of_reference (paste id base : string) :
  reference paste id ->
  pasteURL_of paste base = inl (strings_TrimSuffix base "/" +:+ "/" +:+ id +:+ "?raw").
Proof.
  intros [id' Hclean | id' Hbare Hclean]; unfold pasteURL_of.
  - assert (Hidx : strings_Index (known_prefix +:+ id') "://" <> -1)
      by apply strings_Index_contains, known_prefix_contains.
    apply Z.eqb_neq in Hidx. rewrite Hidx. cbv zeta. simpl negb.
    unfold strings_HasPrefix. rewrite prefix_append, string_drop_append.
    apply clean_ContainsAny in Hclean. rewrite Hclean. reflexivity.
  - assert (Hidx : strings_Index id' "://" = -1).
    { destruct (Z.eq_dec (strings_Index id' "://") (-1)) as [E|E]; [exact E|].
      apply strings_Index_contains in E. contradiction. }
    rewrite Hidx. simpl.
    apply clean_ContainsAny in Hclean. rewrite Hclean. reflexivity.
Qed.

(** Anything else is refused. *)
Lemma pasteURL_of_invalid (paste base : string) :
  (forall id, ~ reference paste id) ->
  pasteURL_of paste base = inr (errors_New "invalid paste URL").
Proof.
  intros Hno. unfold pasteURL_of.
  destruct (strings_Index paste "://" =? -1) eqn:Hidx; cbv zeta; cbn [negb].
  - destruct (strings_ContainsAny paste "./#?") eqn:Hany; [reflexivity|].
    exfalso. apply (Hno paste). apply ref_id.
    + intros Hc. apply strings_Index_contains in Hc. apply Z.eqb_eq in Hidx. contradiction.
    + apply clean_ContainsAny, Hany.
  - unfold strings_HasPrefix.
    destruct (String.prefix known_prefix paste) eqn:Hpre; [|reflexivity].
    apply prefix_split in Hpre as [rest ->]. rewrite string_drop_append.
    destruct (strings_ContainsAny rest "./#?") eqn:Hany; [reflexivity|].
    exfalso. apply (Hno rest). apply ref_url, clean_ContainsAny, Hany.
Qed.

(** What passes the check is a well-formed reference. *)
Lemma pasteURL_of_inl (paste base u : string) :
  pasteURL_of paste base = inl u -> exists id, reference paste id.
Proof.
  unfold pasteURL_of.
  destruct (strings_Index paste "://" =? -1) eqn:Hidx; cbv zeta; cbn [negb].
  - destruct (strings_ContainsAny paste "./#?") eqn:Hany; [discriminate|].
    intros _. exists paste. apply ref_id.
    + intros Hc. apply strings_Index_contains in Hc. apply Z.eqb_eq in Hidx. contradiction.
    + apply clean_ContainsAny, Hany.
  - unfold strings_HasPrefix.
    destruct (String.prefix known_prefix paste) eqn:Hpre; [|discriminate].
    apply prefix_split in Hpre as [rest ->]. rewrite string_drop_append.
    destruct (strings_ContainsAny rest "./#?") eqn:Hany; [discriminate|].
    intros _. exists rest. apply ref_url, clean_ContainsAny, Hany.
Qed.

(** What fails the check is not. *)
Lemma pasteURL_of_inr (paste base : string) (e : error) :
  pasteURL_of paste base = inr e -> forall id, ~ reference paste id.
Proof.
  intros He id Href. rewrite (pasteURL_of_reference paste id base Href) in He. discriminate.
Qed.

Lemma reference_decided (paste : string) :
  (exists id, reference paste id) \/ (forall id, ~ reference paste id).
Proof.
  destruct (pasteURL_of paste "") as [u|e] eqn:E.
  - left. eapply pasteURL_of_inl, E.
  - right. eapply pasteURL_of_inr, E.
Qed.

Lemma URL_get_request (req : request) (hr : HttpRequest) :
  URL (get_request req hr) = URL hr /\ Method (get_request req hr) = Method hr.
Proof.
  unfold get_request, set_token, attach_ctx.
  destruct (negb _), (ctx req); split; reflexivity.
Qed.

(** C4. A paste reference is well formed when it is the public URL of an
    identifier (the exact prefix [https://www.paste.run/], then the
    identifier) or a bare identifier with no scheme separator, the
    identifier holding none of [.], [/], [#], [?]; so a well-formed
    reference with the separator is the public URL, and one without it is
    the identifier. Every reference is well formed or not. [get] refuses
    every reference that is not, with the invalid-reference error and
    without any request; for a well-formed one, the only URL it fetches is
    the base URL without its trailing slash (one [/] is removed if the base
    ends with it), then [/], the identifier and [?raw]: the request holds
    what [url.Parse] makes of that string, and is made whenever it
    parses. *)
Theorem C4_paste_reference (paste : string) (req0 : request) (options : list Option) :
  let req := apply_options req0 options in
  let base := strings_TrimSuffix (pick_baseURL req) "/" in
  let call := get paste req0 options in
  (forall id, reference paste id ->
     pasteURL_of paste (pick_baseURL req) = inl (base +:+ "/" +:+ id +:+ "?raw") /\
     (forall hr, In hr (requests call) ->
        Method hr = "GET" /\
        url_Parse (base +:+ "/" +:+ id +:+ "?raw") = inl (URL hr)) /\
     (forall u, url_Parse (base +:+ "/" +:+ id +:+ "?raw") = inl u ->
        exists hr, requests call = [hr] /\ URL hr = u)) /\
  ((forall id, ~ reference paste id) ->
     ret call = Returns (PasteInfo.zero, Some (errors_New "invalid paste URL")) /\
     requests call = [] /\ exchange call = None) /\
  ((forall t, pick_baseURL req = t +:+ "/" -> base = t) /\
   ((forall t, pick_baseURL req <> t +:+ "/") -> base = pick_baseURL req)) /\
  ((exists id, reference paste id) \/ (forall id, ~ reference paste id)) /\
  (forall id, reference paste id ->
     (contains paste "://" -> paste = known_prefix +:+ id /\ clean id) /\
     (~ contains paste "://" -> paste = id /\ clean id)) /\
  (forall b, pasteURL_of "abc123" b = inl (strings_TrimSuffix b "/" +:+ "/abc123?raw")) /\
  (forall b, pasteURL_of "https://www.paste.run/abc123" b =
             inl (strings_TrimSuffix b "/" +:+ "/abc123?raw")) /\
  (forall b, pasteURL_of "https://evil.example/abc123" b = inr (errors_New "invalid paste URL")) /\
  (forall b, pasteURL_of "abc/123" b = inr (errors_New "invalid paste URL")) /\
  (forall b, pasteURL_of "abc?x" b = inr (errors_New "invalid paste URL")).
Proof.
  intros req base call. split; [|split].
  - intros id Href.
    assert (Hurl := pasteURL_of_reference paste id (pick_baseURL req) Href).
    fold base in Hurl. split; [exact Hurl|].
    unfold call, get. fold req. rewrite Hurl. unfold http_NewRequest.
    destruct (url_Parse (base +:+ "/" +:+ id +:+ "?raw")) as [u|err]; simpl.
    + split.
      * intros hr [<- | []].
        destruct (URL_get_request req {| Method := "GET"; URL := u; ReqHeader := ∅;
                                         ReqCtx := None; Body := NoBody |}) as [-> ->].
        split; reflexivity.
      * intros u' [= <-]. eexists. split; [reflexivity|]. apply URL_get_request.
    + split; [intros hr [] | intros u; discriminate].
  - intros Hno. unfold call, get. fold req.
    rewrite (pasteURL_of_invalid paste (pick_baseURL req) Hno). auto.
  - split.
    { split; [intros t Ht; unfold base; rewrite Ht; apply strings_TrimSuffix_suffix|].
      intros Hno. apply strings_TrimSuffix_other, Hno. }
    split; [apply reference_decided|].
    split; [|repeat split; intros b; reflexivity].
    intros id [id' Hclean | id' Hbare Hclean]; split; intros Hsep; auto.
    + destruct Hsep. apply known_prefix_contains.
    + contradiction.
Qed.

(** ** Downloads *)

Lemma get_exchange (paste : string) (req0 : request) (options : list Option) (res : DoResult) :
  exchange (get paste req0 options) = Some res ->
  ret (get paste req0 options) = get_result res.
Proof.
  unfold get. destruct (pasteURL_of _ _) as [u|err]; [|discriminate].
  destruct (http_NewRequest _ _ _) as [hr|err]; [|discriminate].
  simpl. intros [= <-]. reflexivity.
Qed.

(** C6. On a successful [get] (status 200) the [Created] and [Expires]
    fields are what [time.Parse] gives, in the HTTP date format, for the
    [Created-At] and [Expires] response headers, and the call succeeds
    whatever the two parses say. Given that [time.Parse] returns the zero
    time with every error and does not parse the empty string, each field,
    on its own, is the zero time when its header does not parse or is
    absent. *)
Theorem C6_timestamps (paste : string) (req0 : request) (options : list Option)
    (resp : Response)
    (Hparse_zero : forall layout value t e,
       time_Parse layout value = (t, Some e) -> t = time_zero)
    (Hparse_empty : (time_Parse http_TimeFormat "").2 <> None)
    (Hexchange : exchange (get paste req0 options) = Some (Returns (inl resp)))
    (H200 : StatusCode resp = 200) :
  let created := time_Parse http_TimeFormat (Header_Get "Created-At" (RespHeader resp)) in
  let expires := time_Parse http_TimeFormat (Header_Get "Expires" (RespHeader resp)) in
  exists info,
    ret (get paste req0 options) = Returns (info, None) /\
    PasteInfo.Created info = created.1 /\
    PasteInfo.Expires info = expires.1 /\
    (created.2 <> None -> PasteInfo.Created info = time_zero) /\
    (expires.2 <> None -> PasteInfo.Expires info = time_zero) /\
    (RespHeader resp !! "Created-At" = None -> PasteInfo.Created info = time_zero) /\
    (RespHeader resp !! "Expires" = None -> PasteInfo.Expires info = time_zero).
Proof.
  intros created expires.
  assert (Hfail : forall value, (time_Parse http_TimeFormat value).2 <> None ->
                                (time_Parse http_TimeFormat value).1 = time_zero).
  { intros value Hv. destruct (time_Parse http_TimeFormat value) as [t [e|]] eqn:E.
    - simpl. eapply Hparse_zero, E.
    - contradiction. }
  assert (Habsent : forall key, RespHeader resp !! CanonicalMIMEHeaderKey key = None ->
                                Header_Get key (RespHeader resp) = "").
  { intros key Hk. unfold Header_Get. rewrite Hk. reflexivity. }
  rewrite (get_exchange _ _ _ _ Hexchange). unfold get_result.
  rewrite H200. simpl negb. cbv iota.
  fold created expires.
  destruct created as [c ce] eqn:Ec, expires as [x xe] eqn:Ex.
  eexists. split; [reflexivity|]. simpl.
  split; [reflexivity|]. split; [reflexivity|].
  split; [|split; [|split]].
  - intros Hce. rewrite <- (Hfail _ ltac:(unfold created in Ec; rewrite Ec; exact Hce)).
    unfold created in Ec. rewrite Ec. reflexivity.
  - intros Hxe. rewrite <- (Hfail _ ltac:(unfold expires in Ex; rewrite Ex; exact Hxe)).
    unfold expires in Ex. rewrite Ex. reflexivity.
  - intros Hk. unfold created in Ec. rewrite (Habsent "Created-At" Hk) in Ec.
    rewrite <- (Hfail "" Hparse_empty), Ec. reflexivity.
  - intros Hk. unfold expires in Ex. rewrite (Habsent "Expires" Hk) in Ex.
    rewrite <- (Hfail "" Hparse_empty), Ex. reflexivity.
Qed.

(** ** The language catalog *)

Lemma Header_Get_set_header_pairs (key : string) (hs : list string) (h : Header) :
  (forall kv, In kv (pairs hs) -> CanonicalMIMEHeaderKey kv.1 <> CanonicalMIMEHeaderKey key) ->
  Header_Get key (set_header_pairs hs h) = Header_Get key h.
Proof.
  rewrite set_header_pairs_fold. revert h.
  induction (pairs hs) as [|[k v] ps IH]; intros h Hno; simpl; [reflexivity|].
  rewrite IH by (intros kv Hin; apply Hno; right; exact Hin).
  apply Header_Get_Set_ne. apply (Hno (k, v)). left. reflexivity.
Qed.

Lemma upperhex_safe (n : N) : query_safe (upperhex n) = true.
Proof.
  unfold upperhex.
  destruct (N.to_nat n) as [|[|[|[|[|[|[|[|[|[|[|[|[|[|[|[|m]]]]]]]]]]]]]]]]; reflexivity.
Qed.

(** [url.QueryEscape] leaves only letters, digits, [-_.~], [+] and the
    percent sign of an escape. *)
Lemma url_QueryEscape_safe (s : string) : all_bytes query_safe (url_QueryEscape s) = true.
Proof.
  induction s as [|c s IH]; simpl; [reflexivity|].
  destruct (Ascii.eqb c " "); [exact IH|].
  destruct (shouldEscape c) eqn:E; simpl.
  - rewrite !upperhex_safe, IH. reflexivity.
  - rewrite IH, andb_true_r. unfold shouldEscape in E. apply negb_false_iff in E.
    unfold query_safe. apply orb_true_iff in E as [E|E]; [rewrite E; reflexivity|].
    apply orb_true_iff. right.
    simpl in E |- *.
    repeat match goal with
           | H : (if ?b then true else _) = true |- context [if ?b then _ else _] =>
               destruct b; [reflexivity|]
           end.
    discriminate.
Qed.

Lemma getLanguages_exchange (req0 : request) (options : list Option) (res : DoResult) :
  exchange (getLanguages req0 options) = Some res ->
  ret (getLanguages req0 options) = languages_result res.
Proof.
  unfold getLanguages. destruct (http_NewRequest _ _ _) as [hr|err]; [|discriminate].
  simpl. intros [= <-]. reflexivity.
Qed.

Lemma URL_languages_request (req : request) (hr : HttpRequest) :
  URL (languages_request req hr) = URL hr /\
  Method (languages_request req hr) = Method hr.
Proof.
  unfold languages_request, set_token, attach_ctx.
  destruct (negb _), (ctx req); split; reflexivity.
Qed.

Lemma Header_Get_Set_names (key k v : string) (h : Header) :
  Header_Get key (Header_Set k v h) = if names_key key (k, v) then v else Header_Get key h.
Proof.
  unfold names_key. simpl. destruct (String.eqb_spec (CanonicalMIMEHeaderKey k)
                                       (CanonicalMIMEHeaderKey key)) as [E|E].
  - unfold Header_Get, Header_Set. rewrite E, lookup_insert_eq. reflexivity.
  - apply Header_Get_Set_ne, E.
Qed.

(** A header set pair by pair has the value of the last pair that names
    it. *)
Lemma Header_Get_fold_pairs (key : string) (ps : list (string * string)) (h : Header) :
  Header_Get key (fold_left (fun h' kv => Header_Set (fst kv) (snd kv) h') ps h) =
  match last (filter (fun kv => names_key key kv = true) ps) with
  | Some kv => kv.2
  | None => Header_Get key h
  end.
Proof.
  revert h. induction ps as [|[k v] ps IH]; intros h; [reflexivity|].
  simpl fold_left. rewrite IH, Header_Get_Set_names.
  rewrite filter_cons. simpl.
  destruct (decide (names_key key (k, v) = true)) as [E|E].
  - rewrite last_cons, E. destruct (last _); reflexivity.
  - apply not_true_is_false in E. rewrite E. reflexivity.
Qed.

(** C7, as the code has it. The request of [getLanguages] is a GET of the
    base URL without its trailing slash, then [/languages], then, exactly
    when the query is not empty, [?q=] and the escaped query (so [c++]
    becomes [c%2B%2B]): the request holds what [url.Parse] makes of that
    string, and is made whenever it parses. The extra headers are applied
    after [Accept: application/json]: the [Accept] that is sent is the
    value of the last extra header that names [Accept], in whatever case,
    and [application/json] exactly when no extra header names it or the last
    one says so. On status 200 the [results] list that the decoder gives is
    returned as it is, and the echoed [q] is dropped. *)
Theorem C7_languages (req0 : request) (options : list Option) :
  let req := apply_options req0 options in
  let call := getLanguages req0 options in
  let url := strings_TrimSuffix (pick_baseURL req) "/" +:+ "/languages"
             +:+ (if String.eqb (query req) "" then ""
                  else "?q=" +:+ url_QueryEscape (query req)) in
  (forall hr, In hr (requests call) ->
     Method hr = "GET" /\ url_Parse url = inl (URL hr) /\
     ((forall kv, In kv (pairs (headers req)) -> CanonicalMIMEHeaderKey kv.1 <> "Accept") ->
      Header_Get "Accept" (ReqHeader hr) = "application/json") /\
     Header_Get "Accept" (ReqHeader hr) =
       match last (filter (fun kv => names_key "Accept" kv = true) (pairs (headers req))) with
       | Some kv => kv.2
       | None => "application/json"
       end /\
     (forall kv rest, pairs (headers req) = rest ++ [kv] ->
        CanonicalMIMEHeaderKey kv.1 = "Accept" ->
        Header_Get "Accept" (ReqHeader hr) = kv.2)) /\
  (forall u, url_Parse url = inl u -> exists hr, requests call = [hr] /\ URL hr = u) /\
  (forall t, pick_baseURL req = t +:+ "/" -> strings_TrimSuffix (pick_baseURL req) "/" = t) /\
  (forall s, all_bytes query_safe (url_QueryEscape s) = true) /\
  url_QueryEscape "c++" = "c%2B%2B" /\
  (forall resp x,
     exchange call = Some (Returns (inl resp)) ->
     StatusCode resp = 200 ->
     json_Decode (RespBody resp) = (x, None) ->
     ret call = Returns (Results x, None)).
Proof.
  intros req call url.
  assert (Hurl : languages_url req = url).
  { unfold languages_url, url. destruct (String.eqb (query req) ""); simpl.
    - rewrite append_nil_r. reflexivity.
    - rewrite append_assoc. reflexivity. }
  split; [|split; [|split; [intros t ->; apply strings_TrimSuffix_suffix|
                       split; [exact url_QueryEscape_safe|split; [reflexivity|]]]]].
  - unfold call, getLanguages. fold req. rewrite Hurl. unfold http_NewRequest.
    destruct (url_Parse url) as [u|err]; simpl; [|intros hr []].
    intros hr [<- | []].
    set (hr0 := {| Method := "GET"; URL := u; ReqHeader := ∅; ReqCtx := None;
                   Body := NoBody |}).
    destruct (URL_languages_request req hr0) as [HURL HMethod].
    assert (Haccept : Header_Get "Accept" (ReqHeader (languages_request req hr0)) =
              Header_Get "Accept"
                (set_header_pairs (headers req) (Header_Set "Accept" "application/json" ∅))).
    { unfold languages_request.
      rewrite ReqHeader_set_token, ReqHeader_attach_ctx. simpl ReqHeader.
      destruct (String.eqb (tok req) ""); [reflexivity|].
      apply Header_Get_Set_ne. discriminate. }
    assert (Hlast : Header_Get "Accept" (ReqHeader (languages_request req hr0)) =
              match last (filter (fun kv => names_key "Accept" kv = true)
                            (pairs (headers req))) with
              | Some kv => kv.2
              | None => "application/json"
              end).
    { rewrite Haccept, set_header_pairs_fold, Header_Get_fold_pairs, Header_Get_Set.
      reflexivity. }
    split; [rewrite HMethod; reflexivity|].
    split; [rewrite HURL; reflexivity|].
    split; [|split; [exact Hlast|]].
    + intros Hno. rewrite Haccept.
      rewrite Header_Get_set_header_pairs by exact Hno. apply Header_Get_Set.
    + intros kv rest Hpairs Hkey. rewrite Hlast, Hpairs, filter_app, filter_cons.
      assert (Hname : names_key "Accept" kv = true)
        by (unfold names_key; rewrite Hkey; reflexivity).
      destruct (decide (names_key "Accept" kv = true)) as [_|Hn]; [|contradiction].
      rewrite filter_nil, last_snoc. reflexivity.
  - unfold call, getLanguages. fold req. rewrite Hurl. unfold http_NewRequest.
    intros u ->. simpl. eexists. split; [reflexivity|]. apply URL_languages_request.
  - intros resp x Hex H200 Hdec. unfold call.
    rewrite (getLanguages_exchange _ _ _ Hex). unfold languages_result.
    rewrite H200, Hdec. reflexivity.
Qed.

(** ** [UploadFile] *)


(** * Further properties *)

(** ** Options *)

Lemma eval_option_assign (c : OptionCall) (o : Option) :
  eval_option c = Returns o -> forall req, o req = assign c req.
Proof.
  destruct c; simpl; try (intros [= <-]; reflexivity).
  intros H. apply Headers_Returns_inv in H as [_ H]. exact H.
Qed.

Lemma assign_commute (c1 c2 : OptionCall) (req : request) :
  field_of c1 <> field_of c2 -> assign c1 (assign c2 req) = assign c2 (assign c1 req).
Proof. destruct c1, c2; simpl; intros H; try reflexivity; contradiction. Qed.

Lemma apply_options_assign (cs : list OptionCall) :
  forall opts base,
    eval_options cs = Returns opts ->
    apply_options base opts = fold_left (fun r c => assign c r) cs base.
Proof.
  induction cs as [|c cs IH]; intros opts base Hev.
  - simpl in Hev. injection Hev as <-. reflexivity.
  - apply eval_options_cons_inv in Hev as (o & os & -> & Hc & Hcs).
    rewrite apply_options_cons, (IH os (o base) Hcs), (eval_option_assign c o Hc).
    reflexivity.
Qed.

Lemma eval_options_Returns_Forall (cs : list OptionCall) :
  (exists opts, eval_options cs = Returns opts) <->
  Forall (fun c => exists o, eval_option c = Returns o) cs.
Proof.
  induction cs as [|c cs IH]; simpl.
  - split; [constructor | eauto].
  - split.
    + intros [opts H]. destruct (eval_option c) as [o|v] eqn:Ec; [|discriminate].
      destruct (eval_options cs) as [os|v]; [|discriminate].
      constructor; [eauto | apply IH; eauto].
    + intros H. inversion H as [|c' cs' [o Ho] Hcs]; subst.
      apply IH in Hcs as [os Hos]. rewrite Ho, Hos. eauto.
Qed.

Lemma fold_assign_perm (cs cs' : list OptionCall) :
  cs ≡ₚ cs' -> NoDup (map field_of cs) ->
  forall base, fold_left (fun r c => assign c r) cs base
             = fold_left (fun r c => assign c r) cs' base.
Proof.
  induction 1 as [|c l l' Hp IH|c1 c2 l|l l' l'' Hp1 IH1 Hp2 IH2]; intros Hnd base.
  - reflexivity.
  - simpl. apply IH. simpl in Hnd. apply NoDup_cons in Hnd as [_ Hnd]. exact Hnd.
  - simpl. rewrite assign_commute; [reflexivity|].
    simpl in Hnd. apply NoDup_cons in Hnd as [Hnotin _].
    intros Heq. apply Hnotin. rewrite Heq. left.
  - rewrite IH1 by exact Hnd. apply IH2.
    eapply NoDup_Permutation_proper; [symmetry; apply Permutation_map, Hp1 | exact Hnd].
Qed.

(** X1. Options that set different fields can be given in any order: two
    lists of option expressions that are permutations of each other, with
    no field set twice, resolve to the same configuration on every base (or
    both panic on an odd header list). *)
Theorem options_order_irrelevant (base : request) (cs cs' : list OptionCall)
    (Hperm : cs ≡ₚ cs') (Hfields : NoDup (map field_of cs)) :
  resolve_calls base cs = resolve_calls base cs'.
Proof.
  unfold resolve_calls.
  destruct (eval_options cs) as [opts|v] eqn:E, (eval_options cs') as [opts'|v'] eqn:E'.
  - f_equal. rewrite (apply_options_assign cs opts base E),
      (apply_options_assign cs' opts' base E').
    apply fold_assign_perm; assumption.
  - exfalso.
    assert (H : exists o, eval_options cs' = Returns o).
    { apply eval_options_Returns_Forall. rewrite <- Hperm.
      apply eval_options_Returns_Forall. eauto. }
    destruct H as [o Ho]. congruence.
  - exfalso.
    assert (H : exists o, eval_options cs = Returns o).
    { apply eval_options_Returns_Forall. rewrite Hperm.
      apply eval_options_Returns_Forall. eauto. }
    destruct H as [o Ho]. congruence.
  - rewrite (eval_options_Panics cs v E), (eval_options_Panics cs' v' E'). reflexivity.
Qed.

(** X2. The [Headers] options do not add up: the header list of the
    resolved configuration is the whole list of the last [Headers] option,
    and the base list when there is none. *)
Theorem headers_last_list_wins (base : request) (cs : list OptionCall) (opts : list Option)
    (Hev : eval_options cs = Returns opts) :
  headers (apply_options base opts) = last_set sets_headers cs (headers base).
Proof.
  apply (last_wins headers sets_headers); [|exact Hev].
  intros c o req H. rewrite (eval_option_assign c o H). destruct c; reflexivity.
Qed.

(** ** Extra headers, pair by pair *)

(** X3. After the loop over the extra headers, a header has the value of
    the last pair that names it, in whatever case, and its earlier value if
    no pair does. *)
Theorem extra_headers_last_pair_wins (key : string) (hs : list string) (h : Header) :
  Header_Get key (set_header_pairs hs h) =
  match last (filter (fun kv => names_key key kv = true) (pairs hs)) with
  | Some kv => kv.2
  | None => Header_Get key h
  end.
Proof.
  rewrite set_header_pairs_fold. revert h.
  induction (pairs hs) as [|[k v] ps IH]; intros h; [reflexivity|].
  simpl fold_left. rewrite IH, Header_Get_Set_names.
  rewrite filter_cons. simpl.
  destruct (decide (names_key key (k, v) = true)) as [E|E].
  - rewrite last_cons, E. destruct (last _); reflexivity.
  - apply not_true_is_false in E. rewrite E. reflexivity.
Qed.

Lemma pairs_tail (hs : list string) :
  exists tail, hs = flatten_pairs (pairs hs) ++ tail /\ (List.length tail <= 1)%nat.
Proof.
  enough (H : (exists tail, hs = flatten_pairs (pairs hs) ++ tail /\
                            (List.length tail <= 1)%nat) /\
              forall x, exists tail, x :: hs = flatten_pairs (pairs (x :: hs)) ++ tail /\
                                     (List.length tail <= 1)%nat)
    by apply H.
  induction hs as [|v rest [IH1 IH2]].
  - split; [exists []; split; [reflexivity | simpl; lia]|].
    intros x. exists [x]. split; [reflexivity | simpl; lia].
  - split; [apply IH2|]. intros x. destruct IH1 as (tail & Htail & Hlen).
    exists tail. split; [|exact Hlen]. simpl. rewrite <- Htail. reflexivity.
Qed.

Lemma flatten_pairs_length_even (ps : list (string * string)) :
  Nat.Even (List.length (flatten_pairs ps)).
Proof.
  exists (List.length ps). induction ps as [|kv ps IH]; [reflexivity|].
  unfold flatten_pairs in *. simpl. rewrite IH. lia.
Qed.

Lemma pairs_flatten_pairs (ps : list (string * string)) : pairs (flatten_pairs ps) = ps.
Proof.
  induction ps as [|[k v] ps IH]; [reflexivity|].
  unfold flatten_pairs in *. simpl. rewrite IH. reflexivity.
Qed.

(** X4. The loop over the extra headers reads whole pairs only and never
    past the end: a list is its pairs, flattened, and a tail of at most one
    element, and the loop does on the list what it does on the pairs alone,
    so a dangling last element is not read. *)
Theorem extra_headers_whole_pairs (hs : list string) (h : Header) :
  exists tail,
    hs = flatten_pairs (pairs hs) ++ tail /\
    (List.length tail <= 1)%nat /\
    Nat.Even (List.length (flatten_pairs (pairs hs))) /\
    set_header_pairs hs h = set_header_pairs (flatten_pairs (pairs hs)) h.
Proof.
  destruct (pairs_tail hs) as (tail & Htail & Hlen).
  exists tail. split; [exact Htail|]. split; [exact Hlen|].
  split; [apply flatten_pairs_length_even|].
  rewrite !set_header_pairs_fold, pairs_flatten_pairs. reflexivity.
Qed.

(** ** The request of an upload *)

(** X5. [upload] sends at most one request, and none exactly when the
    base URL does not parse. The request is a POST whose URL is what
    [url.Parse] makes of the base URL of the configuration, the default one
    when that is empty: [upload] trims nothing off the base URL and appends
    nothing to it before the parse. Its body is the pipe's reader and its
    context the one of the configuration. *)
Theorem upload_request_shape (r : Reader) (req0 : request) (options : list Option) :
  let req := apply_options req0 options in
  let run := upload r req0 options in
  (List.length (sent run) <= 1)%nat /\
  (forall hr, In hr (sent run) ->
     Method hr = "POST" /\
     url_Parse (if String.eqb (baseURL req) "" then "https://api.paste.run/"
                else baseURL req) = inl (URL hr) /\
     Body hr = PipeReader /\
     ReqCtx hr = ctx req) /\
  (sent run = [] <-> exists err, url_Parse (pick_baseURL req) = inr err).
Proof.
  intros req run. unfold run. rewrite upload_sent. simpl. fold req.
  unfold http_NewRequest.
  change (if String.eqb (baseURL req) "" then "https://api.paste.run/" else baseURL req)
    with (pick_baseURL req).
  destruct (url_Parse (pick_baseURL req)) as [u|err] eqn:E; simpl.
  - split; [lia|]. split.
    + intros hr [<- | []]. unfold upload_request, set_token, attach_ctx.
      destruct (negb _), (ctx req); repeat split.
    + split; [discriminate | intros [err H]; discriminate H].
  - split; [lia|]. split; [intros hr []|]. split; [eauto | reflexivity].
Qed.

Lemma goroutine_released (req : request) (r : Reader) :
  advance (goroutine req r) (closeRead None io_Pipe) =
  (PExited, {| rerr := Some io_ErrClosedPipe; werr := Some io_ErrClosedPipe |}).
Proof.
  unfold goroutine, write_field_if.
  destruct (negb (String.eqb (author req) "")), (negb (String.eqb (title req) "")),
    (negb (String.eqb (desc req) "")), (negb (String.eqb (typ req) "")); reflexivity.
Qed.

(** X6. When the base URL does not parse, [upload] returns the error of
    [http.NewRequest]; no request is sent and nothing of the body is
    written; the deferred close makes the waiting goroutine's write fail, so
    that it closes its end with [io.ErrClosedPipe] and ends. *)
Theorem upload_bad_base_url (r : Reader) (req0 : request) (options : list Option)
    (err : error)
    (Hurl : url_Parse (pick_baseURL (apply_options req0 options)) = inr err) :
  let run := upload r req0 options in
  returned run = Some (Returns ("", Some err)) /\
  sent run = [] /\
  done run = None /\
  body_sent run = [] /\
  end_pipe run = {| rerr := Some io_ErrClosedPipe; werr := Some io_ErrClosedPipe |} /\
  end_producer run = PExited.
Proof.
  intros run. unfold run. rewrite upload_unfold. unfold upload_body, http_NewRequest.
  rewrite Hurl. simpl. rewrite goroutine_released. repeat split.
Qed.

(** X7. When the payload ends well and the transport reads on, the
    transport reads the whole body, closing boundary line last, then meets
    end-of-stream: the goroutine has closed its end with nil, and [upload]
    returns what follows from the transport's result at end-of-stream. *)
Theorem upload_clean_end (r : Reader) (req0 : request) (options : list Option)
    (hr : HttpRequest)
    (Hok : is_EOF (last_err r) = true)
    (Hsent : In hr (sent (upload r req0 options)))
    (Hreads : reads_on (Do (pick_client (apply_options req0 options)) hr)) :
  let req := apply_options req0 options in
  let run := upload r req0 options in
  body_sent run = body_chunks req r /\
  last (body_sent run) = Some CloseDelimiter /\
  end_pipe run = {| rerr := Some io_ErrClosedPipe; werr := Some io_EOF |} /\
  end_producer run = PExited /\
  exists on_eof on_err,
    Do (pick_client req) hr (body_sent run) = KeepReading on_eof on_err /\
    done run = Some on_eof /\
    returned run = Some (upload_result on_eof).
Proof.
  intros req run. unfold run in *. clear run. fold req in Hreads.
  rewrite upload_sent in Hsent. simpl in Hsent. fold req in Hsent.
  assert (Hdone := upload_done r req0 options). simpl in Hdone. fold req in Hdone.
  assert (Hbody := upload_body_sent r req0 options). simpl in Hbody. fold req in Hbody.
  assert (Hun := upload_unfold r req0 options). unfold upload_body in Hun. fold req in Hun.
  destruct (http_NewRequest "POST" (pick_baseURL req) PipeReader) as [hr0|err];
    [|contradiction].
  destruct Hsent as [<- | []].
  rewrite (serve_goroutine _ Hreads), Hok in Hdone, Hbody, Hun.
  simpl in Hdone, Hbody, Hun.
  destruct (Hreads (body_chunks req r)) as (on_eof & on_err & Ht).
  rewrite Ht in Hdone, Hun.
  split; [exact Hbody|].
  split.
  { rewrite Hbody. unfold body_chunks. rewrite Hok.
    change (PartHeader "file" (Some "-") :: data_chunks (reads r) ++ [CloseDelimiter])
      with ((PartHeader "file" (Some "-") :: data_chunks (reads r)) ++ [CloseDelimiter]).
    rewrite !app_assoc. apply last_snoc. }
  split; [rewrite Hun; reflexivity|].
  split; [rewrite Hun; reflexivity|].
  exists on_eof, on_err. rewrite Hbody.
  split; [exact Ht|]. split; [exact Hdone|].
  apply upload_returned_done, Hdone.
Qed.

(** ** The writer's end of the pipe *)











(** ** The requests of [get] and [getLanguages] *)

Lemma token_over_set_token (req : request) (hr : HttpRequest) :
  token_over req (ReqHeader hr) (ReqHeader (set_token req hr)).
Proof.
  rewrite ReqHeader_set_token. unfold token_over.
  destruct (String.eqb (tok req) "") eqn:E.
  - apply String.eqb_eq in E. split; [intros H; contradiction|].
    split; [reflexivity | reflexivity].
  - apply String.eqb_neq in E. split; [intros _; apply Header_Get_Set|].
    split; [intros H; contradiction|].
    intros key Hkey. apply Header_Get_Set_ne. intros H. apply Hkey. rewrite <- H.
    reflexivity.
Qed.

(** X9. The request of [get] carries the caller's extra headers and
    nothing else of the client's own, except that a token that is not empty
    decides [Authorization] over them; the request of [getLanguages] is the
    same over the default [Accept]. Both have the context of the
    configuration and no body. *)
Theorem download_request_headers (paste : string) (req0 : request)
    (options : list Option) :
  let req := apply_options req0 options in
  (forall hr, In hr (requests (get paste req0 options)) ->
     token_over req (set_header_pairs (headers req) ∅) (ReqHeader hr) /\
     ReqCtx hr = ctx req /\ Body hr = NoBody) /\
  (forall hr, In hr (requests (getLanguages req0 options)) ->
     token_over req
       (set_header_pairs (headers req) (Header_Set "Accept" "application/json" ∅))
       (ReqHeader hr) /\
     ReqCtx hr = ctx req /\ Body hr = NoBody) /\
  (forall hr, In hr (requests (get paste req0 options)) ->
     headers req = [] -> tok req = "" -> ReqHeader hr = ∅).
Proof.
  intros req.
  assert (Hget : forall hr, In hr (requests (get paste req0 options)) ->
     token_over req (set_header_pairs (headers req) ∅) (ReqHeader hr) /\
     ReqCtx hr = ctx req /\ Body hr = NoBody).
  { intros hr. unfold get. fold req.
    destruct (pasteURL_of paste (pick_baseURL req)) as [u|err]; [|intros []].
    unfold http_NewRequest. destruct (url_Parse u); [|intros []].
    intros [<- | []]. unfold get_request. cbv zeta. split.
    - match goal with |- token_over _ _ (ReqHeader (set_token _ ?h)) =>
        assert (H := token_over_set_token req h) end.
      rewrite ReqHeader_attach_ctx in H. exact H.
    - unfold set_token, attach_ctx. destruct (negb _), (ctx req); split; reflexivity. }
  split; [exact Hget|]. split.
  - intros hr. unfold getLanguages. fold req.
    unfold http_NewRequest. destruct (url_Parse (languages_url req)); [|intros []].
    intros [<- | []]. unfold languages_request. cbv zeta. split.
    + match goal with |- token_over _ _ (ReqHeader (set_token _ ?h)) =>
        assert (H := token_over_set_token req h) end.
      rewrite ReqHeader_attach_ctx in H. exact H.
    + unfold set_token, attach_ctx. destruct (negb _), (ctx req); split; reflexivity.
  - intros hr Hin Hnone Htok. destruct (Hget hr Hin) as ((_ & Hsame & _) & _).
    rewrite (Hsame Htok), Hnone. reflexivity.
Qed.

(** ** What [get] and [getLanguages] make of the response *)

(** X10. [get] and [getLanguages] take status 200 only for a success: on a
    response with any other status they return no data and an error, the
    error of reading the response body when that fails, the body without
    the white space around it otherwise. *)
Theorem download_refused (paste : string) (req0 : request) (options : list Option) :
  (forall resp,
     exchange (get paste req0 options) = Some (Returns (inl resp)) ->
     StatusCode resp <> 200 ->
     ret (get paste req0 options) = Returns (PasteInfo.zero, Some (refusal resp))) /\
  (forall resp,
     exchange (getLanguages req0 options) = Some (Returns (inl resp)) ->
     StatusCode resp <> 200 ->
     ret (getLanguages req0 options) = Returns ([], Some (refusal resp))).
Proof.
  split; intros resp Hex Hstatus.
  - rewrite (get_exchange _ _ _ _ Hex). unfold get_result, refusal.
    apply Z.eqb_neq in Hstatus. rewrite Hstatus. simpl.
    destruct (read_err (RespBody resp)); reflexivity.
  - rewrite (getLanguages_exchange _ _ _ Hex). unfold languages_result, refusal.
    apply Z.eqb_neq in Hstatus. rewrite Hstatus. simpl.
    destruct (read_err (RespBody resp)); reflexivity.
Qed.

(** X11. On a response with status 200 [get] succeeds whatever the
    response holds. The content of the result is the response body itself,
    which [get] has not read; the size is the declared content length; type,
    language, class, author and title are the response headers
    [Content-Type], [Paste-Language], [Paste-Class], [Created-By] and
    [Paste-Title], empty when the header is missing. *)
Theorem get_success (paste : string) (req0 : request) (options : list Option)
    (resp : Response)
    (Hexchange : exchange (get paste req0 options) = Some (Returns (inl resp)))
    (H200 : StatusCode resp = 200) :
  exists info,
    ret (get paste req0 options) = Returns (info, None) /\
    PasteInfo.Content info = Some (RespBody resp) /\
    PasteInfo.Size info = ContentLength resp /\
    PasteInfo.Type_ info = Header_Get "Content-Type" (RespHeader resp) /\
    PasteInfo.Language info = Header_Get "Paste-Language" (RespHeader resp) /\
    PasteInfo.Class info = Header_Get "Paste-Class" (RespHeader resp) /\
    PasteInfo.Author info = Header_Get "Created-By" (RespHeader resp) /\
    PasteInfo.Title info = Header_Get "Paste-Title" (RespHeader resp) /\
    (forall key, RespHeader resp !! key = None ->
       In key ["Content-Type"; "Paste-Language"; "Paste-Class"; "Created-By"; "Paste-Title"] ->
       Header_Get key (RespHeader resp) = "").
Proof.
  rewrite (get_exchange _ _ _ _ Hexchange). unfold get_result.
  rewrite H200. simpl.
  destruct (time_Parse http_TimeFormat (Header_Get "Created-At" (RespHeader resp)))
    as [created e1].
  destruct (time_Parse http_TimeFormat (Header_Get "Expires" (RespHeader resp)))
    as [expires e2].
  eexists. split; [reflexivity|]. simpl.
  repeat (split; [reflexivity|]).
  intros key Hnone Hin. unfold Header_Get.
  assert (Hcanon : CanonicalMIMEHeaderKey key = key).
  { simpl in Hin. destruct Hin as [<-|[<-|[<-|[<-|[<-|[]]]]]]; reflexivity. }
  rewrite Hcanon, Hnone. reflexivity.
Qed.

Lemma get_result_error (res : DoResult) (info : PasteInfo.t) (e : error) :
  get_result res = Returns (info, Some e) -> info = PasteInfo.zero.
Proof.
  unfold get_result. destruct res as [[resp|err]|v]; [|congruence|discriminate].
  destruct (negb _).
  - simpl. destruct (read_err (RespBody resp)); congruence.
  - destruct (time_Parse _ _), (time_Parse _ _). discriminate.
Qed.

Lemma languages_result_error (res : DoResult) (l : list LanguageInfo.t) (e : error) :
  languages_result res = Returns (l, Some e) -> l = [].
Proof.
  unfold languages_result. destruct res as [[resp|err]|v]; [|congruence|discriminate].
  destruct (negb _).
  - simpl. destruct (read_err (RespBody resp)); congruence.
  - destruct (json_Decode _) as [x [e'|]]; congruence.
Qed.

(** X12. No call returns data together with an error: with an error
    [upload] returns the empty string, [get] the zero [PasteInfo] and
    [getLanguages] the nil list, on every path. In particular a catalog
    that fails to decode gives the nil list, whatever the decoder had
    filled in by then. *)
Theorem error_without_data (r : Reader) (paste : string) (req0 : request)
    (options : list Option) :
  (forall u e, returned (upload r req0 options) = Some (Returns (u, Some e)) -> u = "") /\
  (forall info e, ret (get paste req0 options) = Returns (info, Some e) ->
     info = PasteInfo.zero) /\
  (forall l e, ret (getLanguages req0 options) = Returns (l, Some e) -> l = []) /\
  (forall resp x e,
     exchange (getLanguages req0 options) = Some (Returns (inl resp)) ->
     StatusCode resp = 200 ->
     json_Decode (RespBody resp) = (x, Some e) ->
     ret (getLanguages req0 options) = Returns ([], Some e)).
Proof.
  split; [|split; [|split]].
  - intros u e. rewrite upload_returned. cbv zeta.
    destruct (http_NewRequest _ _ _) as [hr|err]; [|congruence].
    destruct (done (upload r req0 options)) as [res|]; [|discriminate].
    simpl. intros [= H]. eapply upload_result_error, H.
  - intros info e. unfold get.
    destruct (pasteURL_of _ _) as [u|err]; [|simpl; congruence].
    destruct (http_NewRequest _ _ _) as [hr|err]; [|simpl; congruence].
    simpl. apply get_result_error.
  - intros l e. unfold getLanguages.
    destruct (http_NewRequest _ _ _) as [hr|err]; [|simpl; congruence].
    simpl. apply languages_result_error.
  - intros resp x e Hex H200 Hdec.
    rewrite (getLanguages_exchange _ _ _ Hex). unfold languages_result.
    rewrite H200, Hdec. reflexivity.
Qed.

(** ** The two forms of a paste reference *)

Lemma pasteURL_of_public (id base : string) :
  ~ contains id "://" ->
  pasteURL_of (known_prefix +:+ id) base = pasteURL_of id base.
Proof.
  intros Hbare. unfold pasteURL_of.
  assert (Hidx : strings_Index (known_prefix +:+ id) "://" <> -1)
    by apply strings_Index_contains, known_prefix_contains.
  apply Z.eqb_neq in Hidx. rewrite Hidx.
  assert (Hidx' : strings_Index id "://" = -1).
  { destruct (Z.eq_dec (strings_Index id "://") (-1)) as [E|E]; [exact E|].
    apply strings_Index_contains in E. contradiction. }
  rewrite Hidx'. cbv zeta. cbn [negb Z.eqb orb].
  unfold strings_HasPrefix. rewrite prefix_append, string_drop_append.
  reflexivity.
Qed.

(** X13. For an [id] that is not itself a URL, [get] of the public URL of
    [id] is [get] of [id]: the same request and the same result, or the
    same refusal. *)
Theorem get_public_url (id : string) (req0 : request) (options : list Option)
    (Hbare : ~ contains id "://") :
  get (known_prefix +:+ id) req0 options = get id req0 options.
Proof.
  unfold get. rewrite (pasteURL_of_public id _ Hbare). reflexivity.
Qed.

(** ** A response body of white space only *)

Lemma trim_spaces_blank sp2 sp3 (fuel : nat) (s : string) :
  (String.length s <= fuel)%nat -> all_bytes ascii_space s = true ->
  trim_spaces sp2 sp3 fuel s = "".
Proof.
  revert s. induction fuel as [|fuel IH]; intros s Hlen Hblank.
  - destruct s; [reflexivity | simpl in Hlen; lia].
  - destruct s as [|a rest]; [reflexivity|].
    simpl in Hblank. apply andb_prop in Hblank as [Ha Hrest].
    simpl. rewrite Ha. apply IH; [simpl in Hlen; lia | exact Hrest].
Qed.

Lemma strings_TrimSpace_blank (s : string) :
  all_bytes ascii_space s = true -> strings_TrimSpace s = "".
Proof.
  intros Hblank. unfold strings_TrimSpace, trim_left.
  rewrite (trim_spaces_blank space2 space3 (String.length s) s (le_n _) Hblank).
  reflexivity.
Qed.

(** X14. When the response body of an upload is empty or ASCII white space
    only, a status 201 makes [upload] return the empty string with no
    error, and any other status an error whose message is empty. *)
Theorem upload_blank_reply (r : Reader) (req0 : request) (options : list Option)
    (status : Z) (body : string)
    (Hexecuted : executed (upload r req0 options) status body)
    (Hblank : all_bytes ascii_space body = true) :
  let out := returned (upload r req0 options) in
  (status = 201 -> out = Some (Returns ("", None))) /\
  (status <> 201 -> out = Some (Returns ("", Some (errors_New "")))).
Proof.
  destruct Hexecuted as (resp & Hdone & Hstatus & Hread).
  cbv zeta. rewrite (upload_returned_done _ _ _ _ Hdone).
  unfold upload_result. rewrite Hread, Hstatus, (strings_TrimSpace_blank body Hblank).
  split; intros H.
  - rewrite H. reflexivity.
  - apply Z.eqb_neq in H. rewrite H. reflexivity.
Qed.

(** ** The default title of [UploadFile] *)






(** ** The fields of the configuration that each call reads *)

Lemma get_of_config (paste : string) (req0 : request) (options : list Option) :
  get paste req0 options = get paste (apply_options req0 options) [].
Proof. reflexivity. Qed.

Lemma getLanguages_of_config (req0 : request) (options : list Option) :
  getLanguages req0 options = getLanguages (apply_options req0 options) [].
Proof. reflexivity. Qed.

Lemma upload_of_config (r : Reader) (req0 : request) (options : list Option) :
  upload r req0 options = upload r (apply_options req0 options) [].
Proof. reflexivity. Qed.

(** X16. [get] reads the token, the context, the client, the base URL and
    the extra headers of the configuration and nothing else: options that
    leave these alike give the same call, so that [Author], [Title],
    [Description], [Type] and [Query] mean nothing to it. [getLanguages]
    reads the query besides, and [upload] the four text fields but not the
    query. *)
Theorem options_that_matter (r : Reader) (paste : string) (req0 : request)
    (options options' : list Option)
    (Hsame : same_connection (apply_options req0 options) (apply_options req0 options')) :
  let req := apply_options req0 options in
  let req' := apply_options req0 options' in
  get paste req0 options = get paste req0 options' /\
  (query req = query req' -> getLanguages req0 options = getLanguages req0 options') /\
  (same_fields req req' -> upload r req0 options = upload r req0 options').
Proof.
  cbv zeta.
  rewrite (get_of_config paste req0 options), (get_of_config paste req0 options').
  rewrite (getLanguages_of_config req0 options), (getLanguages_of_config req0 options').
  rewrite (upload_of_config r req0 options), (upload_of_config r req0 options').
  destruct (apply_options req0 options) as [a t d ty tk cx cl b h q].
  destruct (apply_options req0 options') as [a' t' d' ty' tk' cx' cl' b' h' q'].
  destruct Hsame as (Htok & Hctx & Hclient & Hbase & Hheaders). simpl in *. subst.
  split; [reflexivity|]. split.
  - intros H. simpl in H. subst. reflexivity.
  - intros H. unfold same_fields in H. simpl in H.
    destruct H as (-> & -> & -> & ->). reflexivity.
Qed.

End Client.

(** * Examples: the theorems at concrete inputs *)

(** C8 at [Title "draft", Author "Chris", Type "Go", Title "My Paste"]:
    the last title wins, the untouched fields keep the base values. *)
Lemma C8_witness :
  eval_options Sample.titled = Returns (Sample.options_of Sample.titled) /\
  title (apply_options request_zero (Sample.options_of Sample.titled)) = "My Paste" /\
  author (apply_options request_zero (Sample.options_of Sample.titled)) = "Chris" /\
  tok (apply_options request_zero (Sample.options_of Sample.titled)) = "".
Proof.
  split; [reflexivity|].
  destruct (C8_last_option_wins request_zero Sample.titled
              (Sample.options_of Sample.titled) eq_refl)
    as (_ & _ & _ & Hauthor & Htitle & _ & _ & Htok & _).
  split; [exact Htitle|]. split; [exact Hauthor | exact Htok].
Defined.


(** C9 at extra headers that name [Content-Type] and [Authorization]. *)
Lemma C9_witness :
  exists hr,
    In hr (sent (Upload Sample.boundary Sample.url_Parse Sample.DefaultClient
                   Sample.hello (Sample.options_of Sample.forced))) /\
    Header_Get "Content-Type" (ReqHeader hr) = "multipart/form-data; boundary=5f1c0a7e93b2d684" /\
    Header_Get "Authorization" (ReqHeader hr) = "Bearer secret".
Proof.
  eexists. split; [left; reflexivity|].
  destruct (C9_forced_headers Sample.boundary Sample.url_Parse Sample.DefaultClient
              Sample.hello request_zero (Sample.options_of Sample.forced) _
              (or_introl eq_refl))
    as (Hct & _ & Hauth & _).
  split; [exact Hct|]. apply Hauth. discriminate.
Defined.

(** C3 at a status 429 with body [rate limited] in white space. *)
Lemma C3_witness :
  let run := Upload Sample.boundary Sample.url_Parse Sample.rate_limited
               Sample.hello [] in
  let body := " rate limited " +:+ String "010" "" in
  let resp := Sample.response 429 ∅ body in
  done run = Some (Returns (inl resp)) /\
  ioutil_ReadAll (RespBody resp) = (body, None) /\
  returned run = Some (Returns ("", Some (errors_New "rate limited"))) /\
  exists e, returned run = Some (Returns ("", Some e)) /\ Error e = Some "rate limited".
Proof.
  intros run body resp.
  assert (Hdone : done run = Some (Returns (inl resp))) by reflexivity.
  split; [exact Hdone|]. split; [reflexivity|].
  destruct (C3_status_201 Sample.boundary Sample.url_Parse Sample.rate_limited
              Sample.hello request_zero [] resp Hdone)
    as (_ & Hread & _).
  destruct (Hread body eq_refl) as [_ Herr].
  apply Herr. discriminate.
Defined.

(** C3, as stated, fails when the response body cannot be read to its
    end: the request has executed with status 201, and the upload returns
    the error of the read. *)
Lemma C3_read_failure :
  let run := Upload Sample.boundary Sample.url_Parse (Sample.cut_off 201)
               Sample.hello [] in
  exists resp,
    done run = Some (Returns (inl resp)) /\
    StatusCode resp = 201 /\
    returned run = Some (Returns ("", Some (lib_error "net" "connection reset"))) /\
    ~ (exists u, returned run = Some (Returns (u, None))).
Proof.
  intros run. eexists. split; [reflexivity|]. split; [reflexivity|].
  split; [reflexivity|]. intros [u Hu]. discriminate Hu.
Defined.

Lemma server_sends_body (status : Z) (h : Header) (body : string) (hr : HttpRequest) :
  sends_body (Do (Sample.server status h body) hr).
Proof.
  intros seen. eexists _, _. split; [reflexivity|].
  intros e. eexists. split; [reflexivity|].
  apply derived_from_url_Error, derived_from_refl.
Defined.


(** C2 at a configuration with a title and an author, given in that
    order: the author part comes first. *)
Lemma C2_witness :
  let opts := [Title "My Paste"; Author "Chris"] in
  let run := Upload Sample.boundary Sample.url_Parse Sample.DefaultClient
               Sample.hello opts in
  (exists hr, In hr (sent run) /\ reads_on (Do Sample.DefaultClient hr)) /\
  parts_of (body_sent run) =
    [text_part "author" "Chris"; text_part "title" "My Paste"; file_part "hello, world"].
Proof.
  intros opts run.
  split; [eexists; split; [left; reflexivity|];
          apply sends_body_reads_on, server_sends_body|].
  destruct (C2_multipart_fields Sample.boundary Sample.url_Parse Sample.DefaultClient
              Sample.hello request_zero opts)
    as (Hparts & _ & _ & Hall).
  unfold run, Upload.
  rewrite (Hall _ (or_introl eq_refl)
             (sends_body_reads_on _ (server_sends_body _ _ _ _))).
  exact Hparts.
Defined.

Lemma clean_abc123 : clean "abc123".
Proof. apply clean_ContainsAny. reflexivity. Defined.

(** C4 at the public URL of [abc123]. *)
Lemma C4_witness :
  let call := Get Sample.url_Parse Sample.paste_server Sample.time_Parse
                "https://www.paste.run/abc123" [] in
  reference "https://www.paste.run/abc123" "abc123" /\
  Sample.url_Parse "https://api.paste.run/abc123?raw" =
    inl {| URL_String := "https://api.paste.run/abc123?raw" |} /\
  exists hr, requests call = [hr] /\ Method hr = "GET" /\
             URL_String (URL hr) = "https://api.paste.run/abc123?raw".
Proof.
  intros call.
  assert (Href : reference "https://www.paste.run/abc123" "abc123")
    by exact (ref_url "abc123" clean_abc123).
  split; [exact Href|]. split; [reflexivity|].
  destruct (C4_paste_reference Sample.url_Parse Sample.paste_server Sample.time_Parse
              "https://www.paste.run/abc123" request_zero [])
    as (Hvalid & _).
  destruct (Hvalid "abc123" Href) as (_ & Hreq & Hone).
  destruct (Hone _ eq_refl) as (hr & Hhr & Hurl).
  exists hr. split; [exact Hhr|].
  split; [|rewrite Hurl; reflexivity].
  apply Hreq. unfold Get in Hhr. rewrite Hhr. left. reflexivity.
Defined.

Lemma sample_parse_zero (layout value : string) (t : time_Time) (e : error) :
  Sample.time_Parse layout value = (t, Some e) -> t = time_zero.
Proof.
  unfold Sample.time_Parse. destruct (String.eqb value Sample.a_date); congruence.
Defined.

(** C6 at a response with a creation date and no [Expires] header. *)
Lemma C6_witness :
  let call := Get Sample.url_Parse Sample.paste_server Sample.time_Parse "abc123" [] in
  let resp := Sample.response 200 Sample.paste_headers "hello" in
  (forall layout value t e, Sample.time_Parse layout value = (t, Some e) -> t = time_zero) /\
  (Sample.time_Parse http_TimeFormat "").2 <> None /\
  exchange call = Some (Returns (inl resp)) /\
  StatusCode resp = 200 /\
  exists info, ret call = Returns (info, None) /\
               PasteInfo.Created info = Sample.a_time /\
               PasteInfo.Expires info = time_zero.
Proof.
  intros call resp.
  assert (Hempty : (Sample.time_Parse http_TimeFormat "").2 <> None) by discriminate.
  split; [exact sample_parse_zero|]. split; [exact Hempty|].
  split; [reflexivity|]. split; [reflexivity|].
  destruct (C6_timestamps Sample.url_Parse Sample.paste_server Sample.time_Parse
              "abc123" request_zero [] resp sample_parse_zero Hempty eq_refl eq_refl)
    as (info & Hret & Hcreated & _ & _ & _ & _ & Hexpires).
  exists info. split; [exact Hret|]. split; [exact Hcreated|].
  apply Hexpires. reflexivity.
Defined.

(** C7, as stated, fails when the caller's extra headers name [Accept]:
    the request then carries the caller's value. *)
Lemma C7_accept_overridden :
  exists hr,
    call_with Sample.override_accept
      (fun opts => requests (GetLanguages Sample.url_Parse Sample.catalog_server
                               Sample.json_Decode opts))
    = Returns [hr] /\
    Header_Get "Accept" (ReqHeader hr) = "text/plain" /\
    Header_Get "Accept" (ReqHeader hr) <> "application/json".
Proof.
  eexists. split; [reflexivity|]. split; [reflexivity | discriminate].
Defined.

(** C7 at the query [c++] with no extra headers. *)
Lemma C7_witness :
  let call := GetLanguages Sample.url_Parse Sample.catalog_server Sample.json_Decode
                [Query "c++"] in
  let resp := Sample.response 200 ∅ "catalog" in
  exists hr,
    requests call = [hr] /\
    URL_String (URL hr) = "https://api.paste.run/languages?q=c%2B%2B" /\
    Header_Get "Accept" (ReqHeader hr) = "application/json" /\
    exchange call = Some (Returns (inl resp)) /\
    ret call = Returns ([Sample.c_lang; Sample.go_lang], None).
Proof.
  intros call resp.
  destruct (C7_languages Sample.url_Parse Sample.catalog_server Sample.json_Decode
              request_zero [Query "c++"])
    as (Hreq & Hone & _ & _ & _ & Hret).
  destruct (Hone _ eq_refl) as (hr & Hhr & Hurl).
  exists hr. split; [exact Hhr|].
  destruct (Hreq hr) as (_ & _ & Haccept & _);
    [unfold GetLanguages; rewrite Hhr; left; reflexivity|].
  split; [rewrite Hurl; reflexivity|].
  split; [apply Haccept; intros kv []|].
  split; [reflexivity|].
  exact (Hret resp _ eq_refl eq_refl eq_refl).
Defined.


(** ** Other ways out of [upload] *)

(** The transport panics while the goroutine waits in its first write: the
    reader is closed, the goroutine has ended. *)
Example upload_transport_panics :
  let run := Upload Sample.boundary Sample.url_Parse Sample.panicking Sample.hello [] in
  returned run = Some (Panics "transport: broken invariant") /\
  body_sent run = [] /\
  end_pipe run = {| rerr := Some io_ErrClosedPipe; werr := Some io_ErrClosedPipe |} /\
  end_producer run = PExited.
Proof. repeat split. Qed.

(** The base URL does not parse: no request is sent, no byte of the payload
    is written, and the goroutine still ends. *)
Example upload_bad_url :
  let run := Upload Sample.boundary Sample.url_Parse Sample.DefaultClient Sample.hello
               [BaseURL "https://api paste.run/"] in
  returned run
  = Some (Returns ("", Some (lib_error "net/url" "invalid character in host name"))) /\
  sent run = [] /\
  rerr (end_pipe run) = Some io_ErrClosedPipe /\
  end_producer run = PExited.
Proof. repeat split. Qed.

(** The server answers before it has read the body. *)
Example upload_eager_server :
  let run := Upload Sample.boundary Sample.url_Parse
               (Sample.eager_server 201 "https://www.paste.run/abc123") Sample.hello [] in
  returned run = Some (Returns ("https://www.paste.run/abc123", None)) /\
  body_sent run = [] /\
  rerr (end_pipe run) = Some io_ErrClosedPipe /\
  end_producer run = PExited.
Proof. repeat split. Qed.

(** The response body breaks off: the read error is returned, even with
    status 201. *)
Example upload_response_cut_off :
  returned (Upload Sample.boundary Sample.url_Parse (Sample.cut_off 201) Sample.hello [])
  = Some (Returns ("", Some (lib_error "net" "connection reset"))).
Proof. reflexivity. Qed.

(** The whole upload of [hello, world] with a title. *)
Example upload_hello :
  let run := Upload Sample.boundary Sample.url_Parse Sample.DefaultClient Sample.hello
               [Title "greeting"] in
  returned run = Some (Returns ("https://www.paste.run/abc123", None)) /\
  body_sent run = [PartHeader "title" None; PartData "greeting";
                   PartHeader "file" (Some "-"); PartData "hello, "; PartData "world";
                   CloseDelimiter] /\
  end_pipe run = {| rerr := Some io_ErrClosedPipe; werr := Some io_EOF |} /\
  end_producer run = PExited.
Proof. repeat split. Qed.

(** ** Further examples *)

(** X1 at three options of different fields, in two orders. *)
Lemma options_order_irrelevant_witness :
  let cs := [CallTitle "My Paste"; CallToken "secret"; CallHeaders ["X-Trace"; "1"]] in
  let cs' := [CallHeaders ["X-Trace"; "1"]; CallTitle "My Paste"; CallToken "secret"] in
  cs ≡ₚ cs' /\
  NoDup (map field_of cs) /\
  resolve_calls request_zero cs = resolve_calls request_zero cs'.
Proof.
  intros cs cs'.
  assert (Hperm : cs ≡ₚ cs').
  { symmetry.
    exact (Permutation_cons_append [CallTitle "My Paste"; CallToken "secret"]
             (CallHeaders ["X-Trace"; "1"])). }
  assert (Hfields : NoDup (map field_of cs)).
  { simpl. repeat (apply NoDup_cons_2 || apply NoDup_nil_2);
      rewrite ?elem_of_cons, ?elem_of_nil; intuition discriminate. }
  split; [exact Hperm|]. split; [exact Hfields|].
  exact (options_order_irrelevant request_zero cs cs' Hperm Hfields).
Defined.

(** X2 at two header lists with an option between them. *)
Lemma headers_last_list_wins_witness :
  let cs := [CallHeaders ["X-A"; "1"]; CallTitle "t"; CallHeaders ["X-B"; "2"]] in
  eval_options cs = Returns (Sample.options_of cs) /\
  headers (apply_options request_zero (Sample.options_of cs)) = ["X-B"; "2"].
Proof.
  intros cs. split; [reflexivity|].
  exact (headers_last_list_wins request_zero cs (Sample.options_of cs) eq_refl).
Defined.

(** X6 at a base URL with a space in it. *)
Lemma upload_bad_base_url_witness :
  let options := [BaseURL "https://paste example/"] in
  let run := upload Sample.boundary Sample.url_Parse Sample.DefaultClient
               Sample.hello request_zero options in
  let err := lib_error "net/url" "invalid character in host name" in
  Sample.url_Parse (pick_baseURL (apply_options request_zero options)) = inr err /\
  returned run = Some (Returns ("", Some err)) /\
  sent run = [] /\
  end_pipe run = {| rerr := Some io_ErrClosedPipe; werr := Some io_ErrClosedPipe |} /\
  end_producer run = PExited.
Proof.
  intros options run err. split; [reflexivity|].
  destruct (upload_bad_base_url Sample.boundary Sample.url_Parse Sample.DefaultClient
              Sample.hello request_zero options err eq_refl)
    as (Hret & Hsent & _ & _ & Hpipe & Hexit).
  split; [exact Hret|]. split; [exact Hsent|]. split; [exact Hpipe | exact Hexit].
Defined.

(** X7 at the sample payload and a server that reads the body. *)
Lemma upload_clean_end_witness :
  let run := upload Sample.boundary Sample.url_Parse Sample.DefaultClient
               Sample.hello request_zero [] in
  exists hr,
    is_EOF (last_err Sample.hello) = true /\
    In hr (sent run) /\
    reads_on (Do Sample.DefaultClient hr) /\
    body_sent run =
      [PartHeader "file" (Some "-"); PartData "hello, "; PartData "world"; CloseDelimiter] /\
    end_pipe run = {| rerr := Some io_ErrClosedPipe; werr := Some io_EOF |} /\
    returned run = Some (Returns ("https://www.paste.run/abc123", None)).
Proof.
  intros run.
  assert (Hsent : exists hr, sent run = [hr]) by (eexists; reflexivity).
  destruct Hsent as [hr Hhr]. exists hr.
  assert (Hin : In hr (sent run)) by (rewrite Hhr; left; reflexivity).
  assert (Hreads : reads_on (Do Sample.DefaultClient hr))
    by (intros seen; eexists _, _; reflexivity).
  split; [reflexivity|]. split; [exact Hin|]. split; [exact Hreads|].
  destruct (upload_clean_end Sample.boundary Sample.url_Parse Sample.DefaultClient
              Sample.hello request_zero [] hr eq_refl Hin Hreads)
    as (Hbody & _ & Hpipe & _ & on_eof & on_err & Hdo & _ & Hret).
  split; [exact Hbody|]. split; [exact Hpipe|].
  etransitivity; [exact Hret|]. simpl in Hdo. injection Hdo as <- _. reflexivity.
Defined.

(** X10 at a server that does not have the paste. *)
Lemma download_refused_witness :
  let missing := Sample.server 404 ∅ (" no such paste" +:+ String "010" "") in
  let call := get Sample.url_Parse missing Sample.time_Parse "abc123" request_zero [] in
  exists resp,
    exchange call = Some (Returns (inl resp)) /\
    StatusCode resp <> 200 /\
    ret call = Returns (PasteInfo.zero, Some (errors_New "no such paste")).
Proof.
  intros missing call. eexists. split; [reflexivity|].
  assert (Hstatus : 404 <> 200) by discriminate.
  split; [exact Hstatus|].
  destruct (download_refused Sample.url_Parse missing Sample.time_Parse
              Sample.json_Decode "abc123" request_zero []) as [Hget _].
  exact (Hget _ eq_refl Hstatus).
Defined.

(** X11 at the sample paste: a type, no title, five bytes. *)
Lemma get_success_witness :
  let call := get Sample.url_Parse Sample.paste_server Sample.time_Parse
                "abc123" request_zero [] in
  let resp := Sample.response 200 Sample.paste_headers "hello" in
  exchange call = Some (Returns (inl resp)) /\
  StatusCode resp = 200 /\
  exists info,
    ret call = Returns (info, None) /\
    PasteInfo.Content info = Some {| content := "hello"; read_err := None |} /\
    PasteInfo.Size info = 5 /\
    PasteInfo.Type_ info = "text/plain" /\
    PasteInfo.Title info = "".
Proof.
  intros call resp. split; [reflexivity|]. split; [reflexivity|].
  destruct (get_success Sample.url_Parse Sample.paste_server Sample.time_Parse
              "abc123" request_zero [] resp eq_refl eq_refl)
    as (info & Hret & Hcontent & Hsize & Htype & _ & _ & _ & Htitle & _).
  exists info. split; [exact Hret|]. split; [exact Hcontent|].
  split; [exact Hsize|]. split; [exact Htype | exact Htitle].
Defined.

Lemma abc123_bare : ~ contains "abc123" "://".
Proof.
  intros H. apply strings_Index_contains in H. apply H. reflexivity.
Qed.

(** X13 at the paste [abc123]. *)
Lemma get_public_url_witness :
  ~ contains "abc123" "://" /\
  get Sample.url_Parse Sample.paste_server Sample.time_Parse
    "https://www.paste.run/abc123" request_zero [] =
  get Sample.url_Parse Sample.paste_server Sample.time_Parse "abc123" request_zero [].
Proof.
  split; [exact abc123_bare|].
  exact (get_public_url Sample.url_Parse Sample.paste_server Sample.time_Parse
           "abc123" request_zero [] abc123_bare).
Defined.

(** X14 at a server that answers 201 with a line feed only. *)
Lemma upload_blank_reply_witness :
  let blank := " " +:+ String "010" "" in
  let run := upload Sample.boundary Sample.url_Parse (Sample.server 201 ∅ blank)
               Sample.hello request_zero [] in
  executed run 201 blank /\
  all_bytes ascii_space blank = true /\
  returned run = Some (Returns ("", None)).
Proof.
  intros blank run.
  assert (Hexecuted : executed run 201 blank).
  { eexists. split; [reflexivity|]. split; reflexivity. }
  split; [exact Hexecuted|]. split; [reflexivity|].
  destruct (upload_blank_reply Sample.boundary Sample.url_Parse
              (Sample.server 201 ∅ blank) Sample.hello request_zero [] 201 blank
              Hexecuted eq_refl) as [Hcreated _].
  exact (Hcreated eq_refl).
Defined.


(** X16 at a title and a query around the same token. *)
Lemma options_that_matter_witness :
  let options := [Title "draft"; Token "secret"] in
  let options' := [Token "secret"; Query "go"] in
  same_connection (apply_options request_zero options)
    (apply_options request_zero options') /\
  get Sample.url_Parse Sample.paste_server Sample.time_Parse "abc123" request_zero options =
  get Sample.url_Parse Sample.paste_server Sample.time_Parse "abc123" request_zero options'.
Proof.
  intros options options'.
  assert (Hsame : same_connection (apply_options request_zero options)
                    (apply_options request_zero options'))
    by (repeat split; reflexivity).
  split; [exact Hsame|].
  destruct (options_that_matter Sample.boundary Sample.url_Parse Sample.paste_server
              Sample.time_Parse Sample.json_Decode Sample.hello "abc123" request_zero
              options options' Hsame) as [Hget _].
  exact Hget.
Defined.
